(** * The Liszt mesh file format (runtime/src/MeshIO/LisztFormat.h)

    The header file declares the on-disk records of a Liszt mesh file as
    packed C structs, the element-type and base-kind tags, and one function,
    [lMeshTypeSize].  The first part of this development embeds those
    declarations; the second part models the codec that the format
    specification describes on top of them (the reader and the writer are
    not part of the header); the third part proves the properties. *)

From Stdlib Require Import String ZArith List Lia Bool.
From coqutil Require Import Byte Word.LittleEndianList.
Import ListNotations.
Local Open Scope Z_scope.
#[local] Set Warnings "-register-all".

(* ================================================================= *)
(** * Part I: the declarations of LisztFormat.h                       *)
(* ================================================================= *)

(** ** The host ABI

    [lMeshTypeSize] is written with [sizeof(int)], [sizeof(float)],
    [sizeof(double)] and [sizeof(bool)]: values the C++ implementation
    chooses.  So is the size of [enum IOElemType], which has no fixed
    underlying type: GCC and Clang give it the size of [int] by default
    and, with short enums, the single byte its values need.  They are
    the parameters of the embedding. *)

Record Platform : Type := {
  sizeof_int    : Z;
  sizeof_float  : Z;
  sizeof_double : Z;
  sizeof_bool   : Z;
  sizeof_enum   : Z
}.

(** x86-64 System V (Linux, macOS on Intel), GCC and Clang. *)
Definition x86_64_sysv : Platform :=
  {| sizeof_int := 4; sizeof_float := 4; sizeof_double := 8; sizeof_bool := 1;
     sizeof_enum := 4 |}.

(** avr-gcc with its default options: 16-bit [int], 32-bit [double]. *)
Definition avr_gcc : Platform :=
  {| sizeof_int := 2; sizeof_float := 4; sizeof_double := 4; sizeof_bool := 1;
     sizeof_enum := 2 |}.

(** 32-bit PowerPC Darwin, GCC without [-mone-byte-bool]: a 4-byte [bool]. *)
Definition ppc_darwin : Platform :=
  {| sizeof_int := 4; sizeof_float := 4; sizeof_double := 8; sizeof_bool := 4;
     sizeof_enum := 4 |}.

(** 32-bit ARM with short enums (the default of arm-none-eabi-gcc): a
    1-byte [enum IOElemType] beside a 4-byte [int]. *)
Definition arm_short_enums : Platform :=
  {| sizeof_int := 4; sizeof_float := 4; sizeof_double := 8; sizeof_bool := 1;
     sizeof_enum := 1 |}.

(** ** C types and the layout of packed structs *)

Inductive ctype : Type :=
| Tuint32                                   (* uint32_t *)
| Tuint64                                   (* uint64_t *)
| Tchar                                     (* char *)
| Tdouble                                   (* double *)
| Tenum                                     (* enum IOElemType *)
| Tarray (n : nat) (elem : ctype)           (* elem[n] *)
| Tpacked (fields : list (string * ctype))  (* struct ... __attribute__((packed)) *)
| Tunion (members : list (string * ctype)). (* union { ... } *)

(** typedef uint64_t file_ptr; typedef uint32_t lsize_t; typedef uint32_t id_t; *)
Definition file_ptr : ctype := Tuint64.
Definition lsize_t : ctype := Tuint32.
Definition id_t : ctype := Tuint32.

(** [sizeof]: a packed struct is the sum of its fields, a union the largest
    of its members, an array [n] elements.  The size of the enum is the
    platform's. *)
Fixpoint sizeof (P : Platform) (t : ctype) : Z :=
  match t with
  | Tuint32 => 4
  | Tuint64 => 8
  | Tchar => 1
  | Tdouble => sizeof_double P
  | Tenum => sizeof_enum P
  | Tarray n e => Z.of_nat n * sizeof P e
  | Tpacked fs =>
      (fix sum (l : list (string * ctype)) : Z :=
         match l with
         | [] => 0
         | (_, ft) :: r => sizeof P ft + sum r
         end) fs
  | Tunion ms =>
      (fix largest (l : list (string * ctype)) : Z :=
         match l with
         | [] => 0
         | (_, mt) :: r => Z.max (sizeof P mt) (largest r)
         end) ms
  end.

(** The name of a member reached through [path]; the members of an
    anonymous union (declared with the empty name) belong to the
    enclosing struct. *)
Definition member (path name : string) : string :=
  match path, name with
  | EmptyString, _ => name
  | _, EmptyString => path
  | _, _ => (path ++ "." ++ name)%string
  end.

Definition digit (i : nat) : string :=
  match i with
  | 0%nat => "0" | 1%nat => "1" | 2%nat => "2" | 3%nat => "3" | 4%nat => "4"
  | 5%nat => "5" | 6%nat => "6" | 7%nat => "7" | 8%nat => "8" | _ => "9"
  end%string.

(** [layout P t path base]: every scalar member of [t] with its byte offset
    and its width, [t] being placed at offset [base].  Packed: a field
    starts where the previous one ends.  Union: every member starts at
    the union's own offset. *)
Fixpoint layout (P : Platform) (t : ctype) (path : string) (base : Z)
  : list (string * Z * Z) :=
  match t with
  | Tarray n e =>
      (fix elems (k i : nat) (off : Z) : list (string * Z * Z) :=
         match k with
         | O => []
         | S k' =>
             layout P e (path ++ "[" ++ digit i ++ "]")%string off
               ++ elems k' (S i) (off + sizeof P e)
         end) n 0%nat base
  | Tpacked fs =>
      (fix go (l : list (string * ctype)) (off : Z) : list (string * Z * Z) :=
         match l with
         | [] => []
         | (nm, ft) :: r =>
             layout P ft (member path nm) off ++ go r (off + sizeof P ft)
         end) fs base
  | Tunion ms =>
      (fix go (l : list (string * ctype)) : list (string * Z * Z) :=
         match l with
         | [] => []
         | (nm, mt) :: r => layout P mt (member path nm) base ++ go r
         end) ms
  | _ => [(path, base, sizeof P t)]
  end.

(** [chain_end from l]: the members of [l] follow each other without a
    gap and without an overlap from offset [from] on, and end at the
    offset returned. *)
Fixpoint chain_end (from : Z) (l : list (string * Z * Z)) : option Z :=
  match l with
  | [] => Some from
  | (_, off, width) :: r =>
      if off =? from then chain_end (off + width) r else None
  end.

(** ** The declared structs *)

Definition LISZT_MAGIC_NUMBER : Z := 0x18111022.

Definition LisztHeader_t : ctype :=
  Tpacked [ ("magic_number", Tuint32);
            ("nV", lsize_t); ("nE", lsize_t); ("nF", lsize_t);
            ("nC", lsize_t); ("nFE", lsize_t); ("nBoundaries", lsize_t);
            ("field_table_index", file_ptr);
            ("facet_edge_table", file_ptr);
            ("boundary_set_table", file_ptr) ]%string.

Definition HalfFacet_t : ctype :=
  Tpacked [ ("cell", id_t); ("vert", id_t) ]%string.

Definition FileFacetEdge_t : ctype :=
  Tpacked [ ("face", id_t); ("edge", id_t); ("hf", Tarray 2 HalfFacet_t) ]%string.

(** [double data[0][3]]: the table itself takes no room in the struct. *)
Definition PositionTable_t : ctype :=
  Tpacked [ ("data", Tarray 0 (Tarray 3 Tdouble)) ]%string.

Definition BoundarySet_t : ctype :=
  Tpacked [ ("type", Tenum);
            ("", Tunion [ ("start", id_t); ("left_id", lsize_t) ]);
            ("", Tunion [ ("end", id_t); ("right_id", lsize_t) ]);
            ("name_string", file_ptr) ]%string.

Definition LisztType_t : ctype :=
  Tpacked [ ("type", Tchar); ("flags", Tchar); ("data", Tarray 2 Tchar) ]%string.

Definition FileField_t : ctype :=
  Tpacked [ ("domain", Tenum); ("range", LisztType_t); ("nElems", lsize_t);
            ("name", file_ptr); ("data", file_ptr) ]%string.

(** [FileField field[0]]: the descriptors follow the count. *)
Definition FieldTableIndex_t : ctype :=
  Tpacked [ ("num_fields", Tuint32); ("field", Tarray 0 FileField_t) ]%string.

(** The values of the structs. *)

Record LisztHeader : Type := {
  magic_number : Z;
  nV : Z; nE : Z; nF : Z; nC : Z; nFE : Z; nBoundaries : Z;
  field_table_index : Z;
  facet_edge_table : Z;
  boundary_set_table : Z
}.

Record HalfFacet : Type := { cell : Z; vert : Z }.

(** [hf] is the array [HalfFacet hf[2]]. *)
Record FileFacetEdge : Type := {
  face : Z;
  edge : Z;
  hf : HalfFacet * HalfFacet
}.

(** The two anonymous unions of [BoundarySet] are one 32-bit word each,
    [range_lo] and [range_hi]; [start]/[left_id] name the first and
    [end]/[right_id] the second. *)
Record BoundarySet : Type := {
  type : Z;
  range_lo : Z;
  range_hi : Z;
  name_string : Z
}.

Definition start (b : BoundarySet) : Z := range_lo b.
Definition left_id (b : BoundarySet) : Z := range_lo b.
Definition end_ (b : BoundarySet) : Z := range_hi b.
Definition right_id (b : BoundarySet) : Z := range_hi b.

(** The fields type, flags and data[2] of [LisztType]; type and data are
    also fields of [BoundarySet] and [FileField], hence the prefix. *)
Record LisztType : Type := {
  lt_type : Z;
  lt_flags : Z;
  lt_data : Z * Z
}.

Record FileField : Type := {
  domain : Z;
  range : LisztType;
  nElems : Z;
  name : Z;
  data : Z
}.

(** ** enum IOElemType *)

Inductive IOElemType : Type :=
| VERTEX_T | CELL_T | EDGE_T | FACE_T | TYPE_SIZE | AGG_FLAG.

Definition IOElemType_value (t : IOElemType) : Z :=
  match t with
  | VERTEX_T => 0
  | CELL_T => 1
  | EDGE_T => 2
  | FACE_T => 3
  | TYPE_SIZE => 4
  | AGG_FLAG => Z.shiftl 1 7
  end.

(** The flag on a tag, as C tests, sets and clears a bit:
    [t & AGG_FLAG], [t | AGG_FLAG], [t & ~AGG_FLAG]. *)
Definition has_agg_flag (t : Z) : bool :=
  negb (Z.land t (IOElemType_value AGG_FLAG) =? 0).

Definition set_agg_flag (t : Z) : Z := Z.lor t (IOElemType_value AGG_FLAG).

Definition clear_agg_flag (t : Z) : Z :=
  Z.land t (Z.lnot (IOElemType_value AGG_FLAG)).

(** A tag value that shares no bit with the flag. *)
Definition flag_disjoint_from (v : Z) : Prop :=
  Z.land v (IOElemType_value AGG_FLAG) = 0
  /\ Z.land (Z.lor v (IOElemType_value AGG_FLAG))
            (Z.lnot (IOElemType_value AGG_FLAG)) = v
  /\ has_agg_flag v = false
  /\ has_agg_flag (set_agg_flag v) = true
  /\ clear_agg_flag (set_agg_flag v) = v
  /\ clear_agg_flag v = v.

(** ** Base kinds, shape flags and [lMeshTypeSize] *)

Definition LISZT_INT : Z := 0.
Definition LISZT_FLOAT : Z := 1.
Definition LISZT_DOUBLE : Z := 2.
Definition LISZT_BOOL : Z := 3.
Definition LISZT_VEC_FLAG : Z := 1.
Definition LISZT_MAT_FLAG : Z := 3.

(** [typ] is the value of the [char] argument; the [switch] compares it
    with the four case labels in turn. *)
Definition lMeshTypeSize (P : Platform) (typ : Z) : Z :=
  if typ =? LISZT_INT then sizeof_int P
  else if typ =? LISZT_FLOAT then sizeof_float P
  else if typ =? LISZT_DOUBLE then sizeof_double P
  else if typ =? LISZT_BOOL then sizeof_bool P
  else 0.

(** ** More on the declarations *)

(** The value of a byte [b] (0 to 255) in a [char] that is signed, as on
    x86; where [char] is unsigned the value is [b] itself. *)
Definition signed_char_value (b : Z) : Z :=
  if b <? 128 then b else b - 256.

(* ================================================================= *)
(** * Part II: the codec of the format specification                  *)
(* ================================================================= *)

(** The reader and the writer are not in LisztFormat.h.  Every definition
    of this part is modelled from the format specification, and says so.
    One byte order is fixed for the whole format: little-endian, the
    order of the hosts the format was written on. *)

(** ** Errors and results *)

(** Modelled from the spec: the error kinds of the codec (the reader and
    writer are missing from the header file).  [ReferentialIntegrity] and
    [InvalidRange] carry the index of the offending record. *)
Inductive Error : Type :=
| CorruptFile
| Truncated
| UnsupportedType
| ReferentialIntegrity (index : nat)
| InvalidRange (index : nat).

Inductive result (A : Type) : Type :=
| Ok (a : A)
| Err (e : Error).

Arguments Ok {A} a.
Arguments Err {A} e.

Definition bind {A B : Type} (r : result A) (k : A -> result B) : result B :=
  match r with
  | Ok a => k a
  | Err e => Err e
  end.

Notation "x <- r ;; k" := (bind r (fun x => k))
  (at level 61, r at next level, right associativity).

Fixpoint mapM {A B : Type} (f : A -> result B) (l : list A) : result (list B) :=
  match l with
  | [] => Ok []
  | a :: r => b <- f a ;; bs <- mapM f r ;; Ok (b :: bs)
  end.

(** ** Buffers, fixed-width integers, strings *)

Definition buffer : Type := list byte.

Definition flen (b : buffer) : Z := Z.of_nat (length b).

(** Modelled from the spec: a bounds-checked slice of the file buffer
    ([Truncated] when the span does not lie in the file). *)
Definition slice (buf : buffer) (off : Z) (n : nat) : result buffer :=
  if (0 <=? off) && (off + Z.of_nat n <=? flen buf)
  then Ok (firstn n (skipn (Z.to_nat off) buf))
  else Err Truncated.

(** The bytes of a buffer that a member of a [layout], at its offset and
    of its width, covers. *)
Definition member_bytes (bs : buffer) (m : string * Z * Z) : buffer :=
  firstn (Z.to_nat (snd m)) (skipn (Z.to_nat (snd (fst m))) bs).

(** Modelled from the spec: the one byte order of the format (the codec
    is missing from the header file, which declares none); an integer
    is written least significant byte first. *)
Definition put_u32 (v : Z) : buffer := le_split 4 v.
Definition put_u64 (v : Z) : buffer := le_split 8 v.
Definition put_u8 (v : Z) : buffer := le_split 1 v.

(** A sequential parser over a record's bytes: the next [n]-byte integer
    and the bytes after it. *)
Definition take_uint (n : nat) (bs : buffer) : Z * buffer :=
  (le_combine (firstn n bs), skipn n bs).

Definition is_u8 (v : Z) : bool := (0 <=? v) && (v <? 2 ^ 8).
Definition is_u32 (v : Z) : bool := (0 <=? v) && (v <? 2 ^ 32).
Definition is_u64 (v : Z) : bool := (0 <=? v) && (v <? 2 ^ 64).

Definition is_nul (b : byte) : bool := Byte.eqb b Byte.x00.

(** A name as stored: its bytes and the terminator. *)
Definition cstr (s : buffer) : buffer := s ++ [Byte.x00].

Fixpoint scan_cstr (bs : buffer) : option buffer :=
  match bs with
  | [] => None
  | b :: r =>
      if is_nul b then Some []
      else match scan_cstr r with
           | Some s => Some (b :: s)
           | None => None
           end
  end.

(** Modelled from the spec: the shared null-terminated-string reader of
    decodeFieldName and decodeBoundaryName, scanning from the offset to a
    terminator ([Truncated] when the file ends first). *)
Definition decodeName (buf : buffer) (off : Z) : result buffer :=
  if (0 <=? off) && (off <=? flen buf)
  then match scan_cstr (skipn (Z.to_nat off) buf) with
       | Some s => Ok s
       | None => Err Truncated
       end
  else Err Truncated.

(** Modelled from the spec: a table of [n] fixed-size records starting at
    [off]; each record is sliced, decoded and checked on its own, and the
    first failure is the table's (no partial sequence is returned). *)
Fixpoint decodeRecords {A : Type} (size : nat) (dec : nat -> buffer -> result A)
    (buf : buffer) (off : Z) (n : nat) (index : nat) : result (list A) :=
  match n with
  | O => Ok []
  | S k =>
      bs <- slice buf off size ;;
      r <- dec index bs ;;
      rest <- decodeRecords size dec buf (off + Z.of_nat size) k (S index) ;;
      Ok (r :: rest)
  end.

(** Modelled from the spec: the encoder of a table checks and writes the
    records in order. *)
Fixpoint encodeRecords {A : Type} (enc : nat -> A -> result buffer)
    (l : list A) (index : nat) : result buffer :=
  match l with
  | [] => Ok []
  | a :: r =>
      bs <- enc index a ;;
      rest <- encodeRecords enc r (S index) ;;
      Ok (bs ++ rest)
  end.


(** ** TypeDescriptor codec *)

(** Modelled from the spec: the decoded TypeDescriptor (its codec is
    missing from the header file): a base kind among the four recognized
    ones and a shape with its dimensions. *)
Inductive BaseKind : Type := IntKind | FloatKind | DoubleKind | BoolKind.

Inductive Shape : Type :=
| Scalar
| Vector (len : Z)
| Matrix (rows cols : Z).

Record TypeDescriptor : Type := {
  base : BaseKind;
  shape : Shape
}.

Definition kind_tag (k : BaseKind) : Z :=
  match k with
  | IntKind => LISZT_INT
  | FloatKind => LISZT_FLOAT
  | DoubleKind => LISZT_DOUBLE
  | BoolKind => LISZT_BOOL
  end.

Definition kind_of_tag (typ : Z) : option BaseKind :=
  if typ =? LISZT_INT then Some IntKind
  else if typ =? LISZT_FLOAT then Some FloatKind
  else if typ =? LISZT_DOUBLE then Some DoubleKind
  else if typ =? LISZT_BOOL then Some BoolKind
  else None.

Definition multiplicity (s : Shape) : Z :=
  match s with
  | Scalar => 1
  | Vector len => len
  | Matrix rows cols => rows * cols
  end.

(** Modelled from the spec: elementByteSize, the base-kind size times the
    multiplicity of the shape (the function is missing from the header
    file).  The base-kind size is that of the source, [lMeshTypeSize]. *)
Definition elementByteSize (P : Platform) (td : TypeDescriptor) : Z :=
  lMeshTypeSize P (kind_tag (base td)) * multiplicity (shape td).

(** The shape flag is the low two bits of the flags byte. *)
Definition shape_flag (lt : LisztType) : Z := Z.land (lt_flags lt) 3.


(** Modelled from the spec: the validation of a raw type tag (missing from
    the header file).  An unrecognized base kind and the reserved shape
    flag 2 are [UnsupportedType]. *)
Definition checkType (lt : LisztType) : result TypeDescriptor :=
  match kind_of_tag (lt_type lt) with
  | None => Err UnsupportedType
  | Some k =>
      if shape_flag lt =? 0 then Ok {| base := k; shape := Scalar |}
      else if shape_flag lt =? LISZT_VEC_FLAG
      then Ok {| base := k; shape := Vector (fst (lt_data lt)) |}
      else if shape_flag lt =? LISZT_MAT_FLAG
      then Ok {| base := k;
                 shape := Matrix (fst (lt_data lt)) (snd (lt_data lt)) |}
      else Err UnsupportedType
  end.

(** Modelled from the spec: the 4 bytes of a type tag, 1 byte base kind,
    1 byte shape flags, 2 bytes shape data. *)
Definition parse_LisztType (bs : buffer) : LisztType :=
  let (t, bs) := take_uint 1 bs in
  let (f, bs) := take_uint 1 bs in
  let (d0, bs) := take_uint 1 bs in
  let (d1, _) := take_uint 1 bs in
  {| lt_type := t; lt_flags := f; lt_data := (d0, d1) |}.

Definition put_LisztType (lt : LisztType) : buffer :=
  put_u8 (lt_type lt) ++ put_u8 (lt_flags lt)
    ++ put_u8 (fst (lt_data lt)) ++ put_u8 (snd (lt_data lt)).

(** Modelled from the spec: decode(raw 4 bytes). *)
Definition decodeType (raw : buffer) : result TypeDescriptor :=
  checkType (parse_LisztType raw).

(** Modelled from the spec: the raw tag of a TypeDescriptor. *)
Definition encodeType (td : TypeDescriptor) : LisztType :=
  match shape td with
  | Scalar =>
      {| lt_type := kind_tag (base td); lt_flags := 0; lt_data := (0, 0) |}
  | Vector len =>
      {| lt_type := kind_tag (base td); lt_flags := LISZT_VEC_FLAG;
         lt_data := (len, 0) |}
  | Matrix rows cols =>
      {| lt_type := kind_tag (base td); lt_flags := LISZT_MAT_FLAG;
         lt_data := (rows, cols) |}
  end.

(** ** Header codec *)

Definition HEADER_SIZE : nat := 52.

(** Modelled from the spec: encodeHeader writes every field of
    [LisztHeader] at its fixed width, in the declared order. *)
Definition encodeHeader (h : LisztHeader) : buffer :=
  put_u32 (magic_number h)
    ++ put_u32 (nV h) ++ put_u32 (nE h) ++ put_u32 (nF h)
    ++ put_u32 (nC h) ++ put_u32 (nFE h) ++ put_u32 (nBoundaries h)
    ++ put_u64 (field_table_index h)
    ++ put_u64 (facet_edge_table h)
    ++ put_u64 (boundary_set_table h).

Definition parse_LisztHeader (bs : buffer) : LisztHeader :=
  let (m, bs) := take_uint 4 bs in
  let (v, bs) := take_uint 4 bs in
  let (e, bs) := take_uint 4 bs in
  let (f, bs) := take_uint 4 bs in
  let (c, bs) := take_uint 4 bs in
  let (fe, bs) := take_uint 4 bs in
  let (b, bs) := take_uint 4 bs in
  let (fti, bs) := take_uint 8 bs in
  let (fet, bs) := take_uint 8 bs in
  let (bst, _) := take_uint 8 bs in
  {| magic_number := m; nV := v; nE := e; nF := f; nC := c; nFE := fe;
     nBoundaries := b; field_table_index := fti; facet_edge_table := fet;
     boundary_set_table := bst |}.

(** A table offset lies after the header and within the file. *)
Definition offset_ok (buf : buffer) (off : Z) : bool :=
  (Z.of_nat HEADER_SIZE <=? off) && (off <=? flen buf).

(** Modelled from the spec: decodeHeader, whose only error is
    [CorruptFile].  The magic number is read and compared first; the
    other fields are read after it, then the three offsets are checked. *)
Definition decodeHeader (buf : buffer) : result LisztHeader :=
  match slice buf 0 4 with
  | Err _ => Err CorruptFile
  | Ok m =>
      if le_combine m =? LISZT_MAGIC_NUMBER then
        match slice buf 0 HEADER_SIZE with
        | Err _ => Err CorruptFile
        | Ok hb =>
            let h := parse_LisztHeader hb in
            if offset_ok buf (field_table_index h)
               && offset_ok buf (facet_edge_table h)
               && offset_ok buf (boundary_set_table h)
            then Ok h
            else Err CorruptFile
        end
      else Err CorruptFile
  end.

(** ** Facet-edge table codec *)

Definition FACET_EDGE_SIZE : nat := 24.

(** Modelled from the spec: the 24 bytes of a record, the face id, the
    edge id, then the two HalfFacets. *)
Definition put_FileFacetEdge (r : FileFacetEdge) : buffer :=
  put_u32 (face r) ++ put_u32 (edge r)
    ++ put_u32 (cell (fst (hf r))) ++ put_u32 (vert (fst (hf r)))
    ++ put_u32 (cell (snd (hf r))) ++ put_u32 (vert (snd (hf r))).

Definition parse_FileFacetEdge (bs : buffer) : FileFacetEdge :=
  let (f, bs) := take_uint 4 bs in
  let (e, bs) := take_uint 4 bs in
  let (c0, bs) := take_uint 4 bs in
  let (v0, bs) := take_uint 4 bs in
  let (c1, bs) := take_uint 4 bs in
  let (v1, _) := take_uint 4 bs in
  {| face := f; edge := e;
     hf := ({| cell := c0; vert := v0 |}, {| cell := c1; vert := v1 |}) |}.

(** Record number [i] of the facet-edge table at [off], as the bytes of
    the buffer give it. *)
Definition facet_edge_at (buf : buffer) (off : Z) (i : nat) : FileFacetEdge :=
  parse_FileFacetEdge
    (firstn FACET_EDGE_SIZE
       (skipn (Z.to_nat (off + Z.of_nat FACET_EDGE_SIZE * Z.of_nat i)) buf)).

(** The four bounds of a facet-edge record against the header counts. *)
Definition ids_in_bounds (h : LisztHeader) (r : FileFacetEdge) : bool :=
  (cell (fst (hf r)) <? nC h) && (cell (snd (hf r)) <? nC h)
  && (vert (fst (hf r)) <? nV h) && (vert (snd (hf r)) <? nV h)
  && (face r <? nF h) && (edge r <? nE h).

Definition checkFacetEdge (h : LisztHeader) (index : nat) (r : FileFacetEdge)
  : result FileFacetEdge :=
  if ids_in_bounds h r then Ok r else Err (ReferentialIntegrity index).

(** Modelled from the spec: decodeFacetEdges(bytes, offset, nFE), the
    counts being those of the decoded header [h]. *)
Definition decodeFacetEdges (h : LisztHeader) (buf : buffer) (off : Z) (n : Z)
  : result (list FileFacetEdge) :=
  decodeRecords FACET_EDGE_SIZE
    (fun index bs => checkFacetEdge h index (parse_FileFacetEdge bs))
    buf off (Z.to_nat n) 0.

(** Modelled from the spec: encodeFacetEdges enforces the same bounds
    before writing. *)
Definition encodeFacetEdges (h : LisztHeader) (l : list FileFacetEdge)
  : result buffer :=
  encodeRecords
    (fun index r => r' <- checkFacetEdge h index r ;; Ok (put_FileFacetEdge r'))
    l 0.

(** ** Boundary-set table codec *)

Definition BOUNDARY_SET_SIZE : nat := 20.

(** Modelled from the spec: the two interpretations of the range of a
    boundary set. *)
Inductive BoundaryRange : Type :=
| DirectRange (first last : Z)      (* ids [start, end) *)
| IndirectRange (first last : Z).   (* side-table entries [left_id, right_id) *)

Definition is_indirect (r : BoundaryRange) : bool :=
  match r with
  | DirectRange _ _ => false
  | IndirectRange _ _ => true
  end.

(** Modelled from the spec: the resolution rule; the aggregate flag of
    the type tag selects the interpretation. *)
Definition boundary_range (b : BoundarySet) : BoundaryRange :=
  if has_agg_flag (type b)
  then IndirectRange (left_id b) (right_id b)
  else DirectRange (start b) (end_ b).

Definition range_ordered (r : BoundaryRange) : bool :=
  match r with
  | DirectRange s e => s <=? e
  | IndirectRange l r => l <=? r
  end.

(** Modelled from the spec: the 20 bytes of a record, the type tag, the
    two words of the range, the offset of the name. *)
Definition put_BoundarySet (b : BoundarySet) : buffer :=
  put_u32 (type b) ++ put_u32 (range_lo b) ++ put_u32 (range_hi b)
    ++ put_u64 (name_string b).

Definition parse_BoundarySet (bs : buffer) : BoundarySet :=
  let (t, bs) := take_uint 4 bs in
  let (lo, bs) := take_uint 4 bs in
  let (hi, bs) := take_uint 4 bs in
  let (nm, _) := take_uint 8 bs in
  {| type := t; range_lo := lo; range_hi := hi; name_string := nm |}.

Definition checkBoundarySet (index : nat) (b : BoundarySet) : result BoundarySet :=
  if range_ordered (boundary_range b) then Ok b else Err (InvalidRange index).

(** Modelled from the spec: decodeBoundarySets(bytes, offset, nBoundaries);
    the names are not read here. *)
Definition decodeBoundarySets (buf : buffer) (off : Z) (n : Z)
  : result (list BoundarySet) :=
  decodeRecords BOUNDARY_SET_SIZE
    (fun index bs => checkBoundarySet index (parse_BoundarySet bs))
    buf off (Z.to_nat n) 0.

(** Modelled from the spec: a boundary set in memory, with the
    interpretation of its range decided and its name resolved. *)
Record Boundary : Type := {
  b_type : Z;
  b_range : BoundaryRange;
  b_name : buffer
}.

(** The record written for a boundary set whose name is at [name_at]:
    each interpretation writes its two words in the union's storage. *)
Definition boundary_record (b : Boundary) (name_at : Z) : BoundarySet :=
  match b_range b with
  | DirectRange s e =>
      {| type := b_type b; range_lo := s; range_hi := e; name_string := name_at |}
  | IndirectRange l r =>
      {| type := b_type b; range_lo := l; range_hi := r; name_string := name_at |}
  end.

(** The records of the boundary sets, their names stored one after the
    other from [name_at]. *)
Fixpoint boundary_records (l : list Boundary) (name_at : Z) : list BoundarySet :=
  match l with
  | [] => []
  | b :: r =>
      boundary_record b name_at
        :: boundary_records r (name_at + flen (cstr (b_name b)))
  end.

(** The name of a boundary set as stored. *)
Definition boundary_cstr (b : Boundary) : buffer := cstr (b_name b).

(** The caller's contract: the interpretation agrees with the flag. *)
Definition branch_matches_flag (b : Boundary) : bool :=
  Bool.eqb (has_agg_flag (b_type b)) (is_indirect (b_range b)).

(** Modelled from the spec: encodeBoundarySets reports a mixed branch or
    a reversed range as [InvalidRange].  The names are stored one after
    the other from [name_at], each with its terminator. *)
Fixpoint encodeBoundarySets (l : list Boundary) (name_at : Z) (index : nat)
  : result buffer :=
  match l with
  | [] => Ok []
  | b :: r =>
      if branch_matches_flag b && range_ordered (b_range b)
      then
        rest <- encodeBoundarySets r (name_at + flen (cstr (b_name b))) (S index) ;;
        Ok (put_BoundarySet (boundary_record b name_at) ++ rest)
      else Err (InvalidRange index)
  end.

Definition resolveBoundary (buf : buffer) (b : BoundarySet) : result Boundary :=
  nm <- decodeName buf (name_string b) ;;
  Ok {| b_type := type b; b_range := boundary_range b; b_name := nm |}.

(** ** Field table codec *)

Definition FILE_FIELD_SIZE : nat := 28.

(** Modelled from the spec: a decoded FieldDescriptor; its name and its
    data block stay in the file, at the two offsets. *)
Record FieldDescriptor : Type := {
  fd_domain : Z;
  fd_range : TypeDescriptor;
  fd_nElems : Z;
  fd_name : Z;
  fd_data : Z
}.

(** Modelled from the spec: the 28 bytes of a descriptor, the domain
    tag, the type tag, the element count, the offsets of the name and of
    the data block. *)
Definition put_FileField (f : FileField) : buffer :=
  put_u32 (domain f) ++ put_LisztType (range f) ++ put_u32 (nElems f)
    ++ put_u64 (name f) ++ put_u64 (data f).

Definition parse_FileField (bs : buffer) : FileField :=
  let (d, bs) := take_uint 4 bs in
  let lt := parse_LisztType (firstn 4 bs) in
  let bs := skipn 4 bs in
  let (n, bs) := take_uint 4 bs in
  let (nm, bs) := take_uint 8 bs in
  let (dt, _) := take_uint 8 bs in
  {| domain := d; range := lt; nElems := n; name := nm; data := dt |}.

(** The length of a field's data block. *)
Definition dataLength (P : Platform) (d : FieldDescriptor) : Z :=
  fd_nElems d * elementByteSize P (fd_range d).

Definition checkField (P : Platform) (buf : buffer) (f : FileField)
  : result FieldDescriptor :=
  td <- checkType (range f) ;;
  let d := {| fd_domain := domain f; fd_range := td; fd_nElems := nElems f;
              fd_name := name f; fd_data := data f |} in
  if data f + dataLength P d <=? flen buf then Ok d else Err Truncated.

(** Modelled from the spec: decodeFieldTable(bytes, offset): a count, then
    that many descriptors; a data block is checked to lie in the file and
    is not read. *)
Definition decodeFieldTable (P : Platform) (buf : buffer) (off : Z)
  : result (list FieldDescriptor) :=
  cnt <- slice buf off 4 ;;
  decodeRecords FILE_FIELD_SIZE
    (fun _ bs => checkField P buf (parse_FileField bs))
    buf (off + 4) (Z.to_nat (le_combine cnt)) 0.

(** Modelled from the spec: readFieldData, the bulk read on demand. *)
Definition readFieldData (P : Platform) (buf : buffer) (d : FieldDescriptor)
  : result buffer :=
  slice buf (fd_data d) (Z.to_nat (dataLength P d)).

(** Modelled from the spec: a field in memory, with its name and the
    bytes of its data block. *)
Record Field : Type := {
  f_domain : Z;
  f_range : TypeDescriptor;
  f_nElems : Z;
  f_name : buffer;
  f_data : buffer
}.

Definition field_record (f : Field) (name_at data_at : Z) : FileField :=
  {| domain := f_domain f; range := encodeType (f_range f);
     nElems := f_nElems f; name := name_at; data := data_at |}.

(** The records of the fields, their names stored one after the other
    from [name_at] and their data blocks from [data_at]. *)
Fixpoint field_records (l : list Field) (name_at data_at : Z) : list FileField :=
  match l with
  | [] => []
  | f :: r =>
      field_record f name_at data_at
        :: field_records r (name_at + flen (cstr (f_name f)))
                           (data_at + flen (f_data f))
  end.

(** The name of a field as stored. *)
Definition field_cstr (f : Field) : buffer := cstr (f_name f).

(** The descriptors of those records. *)
Definition field_descriptor (f : Field) (name_at data_at : Z) : FieldDescriptor :=
  {| fd_domain := f_domain f; fd_range := f_range f; fd_nElems := f_nElems f;
     fd_name := name_at; fd_data := data_at |}.

Fixpoint field_descriptors (l : list Field) (name_at data_at : Z)
  : list FieldDescriptor :=
  match l with
  | [] => []
  | f :: r =>
      field_descriptor f name_at data_at
        :: field_descriptors r (name_at + flen (cstr (f_name f)))
                               (data_at + flen (f_data f))
  end.

(** Modelled from the spec: the field-table index, a count and that many
    descriptors. *)
Definition encodeFieldTable (l : list Field) (name_at data_at : Z) : buffer :=
  put_u32 (Z.of_nat (length l))
    ++ concat (map put_FileField (field_records l name_at data_at)).

Definition resolveField (P : Platform) (buf : buffer) (d : FieldDescriptor)
  : result Field :=
  nm <- decodeName buf (fd_name d) ;;
  bytes <- readFieldData P buf d ;;
  Ok {| f_domain := fd_domain d; f_range := fd_range d; f_nElems := fd_nElems d;
        f_name := nm; f_data := bytes |}.

(** ** Mesh file orchestrator *)

(** Modelled from the spec: the mesh in memory.  The counts of facet
    edges, boundary sets and fields are the lengths of the sequences.
    (The header has no offset for a position table: vertex positions
    travel as a field.) *)
Record MeshFile : Type := {
  m_nV : Z; m_nE : Z; m_nF : Z; m_nC : Z;
  m_facet_edges : list FileFacetEdge;
  m_boundaries : list Boundary;
  m_fields : list Field
}.

Definition boundary_names (M : MeshFile) : list buffer :=
  map (fun b => cstr (b_name b)) (m_boundaries M).

Definition field_names (M : MeshFile) : list buffer :=
  map (fun f => cstr (f_name f)) (m_fields M).

Definition field_blocks (M : MeshFile) : list buffer :=
  map f_data (m_fields M).

(** The offsets the writer assigns: the header, the names of the boundary
    sets, the names of the fields, the facet-edge table, the boundary-set
    table, the field-table index, the data blocks. *)
Definition boundary_names_at : Z := Z.of_nat HEADER_SIZE.

Definition field_names_at (M : MeshFile) : Z :=
  boundary_names_at + flen (concat (boundary_names M)).

Definition facet_edges_at (M : MeshFile) : Z :=
  field_names_at M + flen (concat (field_names M)).

Definition boundary_sets_at (M : MeshFile) : Z :=
  facet_edges_at M
  + Z.of_nat FACET_EDGE_SIZE * Z.of_nat (length (m_facet_edges M)).

Definition field_table_at (M : MeshFile) : Z :=
  boundary_sets_at M
  + Z.of_nat BOUNDARY_SET_SIZE * Z.of_nat (length (m_boundaries M)).

Definition field_blocks_at (M : MeshFile) : Z :=
  field_table_at M + 4 + Z.of_nat FILE_FIELD_SIZE * Z.of_nat (length (m_fields M)).

Definition file_size (M : MeshFile) : Z :=
  field_blocks_at M + flen (concat (field_blocks M)).

Definition mesh_header (M : MeshFile) : LisztHeader :=
  {| magic_number := LISZT_MAGIC_NUMBER;
     nV := m_nV M; nE := m_nE M; nF := m_nF M; nC := m_nC M;
     nFE := Z.of_nat (length (m_facet_edges M));
     nBoundaries := Z.of_nat (length (m_boundaries M));
     field_table_index := field_table_at M;
     facet_edge_table := facet_edges_at M;
     boundary_set_table := boundary_sets_at M |}.

(** Modelled from the spec: writeMesh.  The sizes give the offsets, the
    offsets give the header, and the tables follow it in the assigned
    order. *)
Definition writeMesh (M : MeshFile) : result buffer :=
  let h := mesh_header M in
  fe <- encodeFacetEdges h (m_facet_edges M) ;;
  bs <- encodeBoundarySets (m_boundaries M) boundary_names_at 0 ;;
  let ft := encodeFieldTable (m_fields M) (field_names_at M) (field_blocks_at M) in
  Ok (encodeHeader h ++ concat (boundary_names M) ++ concat (field_names M)
        ++ fe ++ bs ++ ft ++ concat (field_blocks M)).

(** Modelled from the spec: readMesh.  The header first, then each table
    at the offset the header gives.  The codec reads a name or a data
    block when it is asked for; here every one is asked for (decodeName,
    readFieldData), so that the mesh returned holds the names and the
    bytes themselves. *)
Definition readMesh (P : Platform) (buf : buffer) : result MeshFile :=
  h <- decodeHeader buf ;;
  fe <- decodeFacetEdges h buf (facet_edge_table h) (nFE h) ;;
  bs <- decodeBoundarySets buf (boundary_set_table h) (nBoundaries h) ;;
  fds <- decodeFieldTable P buf (field_table_index h) ;;
  boundaries <- mapM (resolveBoundary buf) bs ;;
  fields <- mapM (resolveField P buf) fds ;;
  Ok {| m_nV := nV h; m_nE := nE h; m_nF := nF h; m_nC := nC h;
        m_facet_edges := fe; m_boundaries := boundaries; m_fields := fields |}.

(** ** Valid meshes *)

(** A header whose fields fit their widths. *)
Definition header_ok (h : LisztHeader) : bool :=
  is_u32 (magic_number h)
  && is_u32 (nV h) && is_u32 (nE h) && is_u32 (nF h) && is_u32 (nC h)
  && is_u32 (nFE h) && is_u32 (nBoundaries h)
  && is_u64 (field_table_index h) && is_u64 (facet_edge_table h)
  && is_u64 (boundary_set_table h).

Definition nul_free (s : buffer) : bool := forallb (fun b => negb (is_nul b)) s.

Definition facet_edge_ok (h : LisztHeader) (r : FileFacetEdge) : bool :=
  is_u32 (face r) && is_u32 (edge r)
  && is_u32 (cell (fst (hf r))) && is_u32 (vert (fst (hf r)))
  && is_u32 (cell (snd (hf r))) && is_u32 (vert (snd (hf r)))
  && ids_in_bounds h r.

Definition range_words_ok (r : BoundaryRange) : bool :=
  match r with
  | DirectRange s e => is_u32 s && is_u32 e
  | IndirectRange l r => is_u32 l && is_u32 r
  end.

Definition boundary_ok (b : Boundary) : bool :=
  is_u32 (b_type b) && range_words_ok (b_range b)
  && branch_matches_flag b && range_ordered (b_range b)
  && nul_free (b_name b).

Definition shape_ok (s : Shape) : bool :=
  match s with
  | Scalar => true
  | Vector len => is_u8 len
  | Matrix rows cols => is_u8 rows && is_u8 cols
  end.

Definition field_ok (P : Platform) (f : Field) : bool :=
  is_u32 (f_domain f) && is_u32 (f_nElems f) && shape_ok (shape (f_range f))
  && nul_free (f_name f)
  && (flen (f_data f) =? f_nElems f * elementByteSize P (f_range f)).

(** A mesh the format can hold: counts and ids of 32 bits, ids below
    their counts, ranges ordered and of the flagged interpretation,
    names without the terminator, each data block of its declared
    length (the element count times the element byte size of the
    platform), and a file whose offsets fit 64 bits. *)
Definition valid_mesh (P : Platform) (M : MeshFile) : bool :=
  is_u32 (m_nV M) && is_u32 (m_nE M) && is_u32 (m_nF M) && is_u32 (m_nC M)
  && is_u32 (Z.of_nat (length (m_facet_edges M)))
  && is_u32 (Z.of_nat (length (m_boundaries M)))
  && is_u32 (Z.of_nat (length (m_fields M)))
  && forallb (facet_edge_ok (mesh_header M)) (m_facet_edges M)
  && forallb boundary_ok (m_boundaries M)
  && forallb (field_ok P) (m_fields M)
  && is_u64 (file_size M).

(** ** Sample meshes *)

Definition facet_edge (f e a b : Z) : FileFacetEdge :=
  {| face := f; edge := e;
     hf := ({| cell := 0; vert := a |}, {| cell := 0; vert := b |}) |}.

(** The facet edges of a tetrahedron: faces 012, 013, 023, 123 and edges
    01, 02, 03, 12, 13, 23. *)
Definition tetrahedron_facet_edges : list FileFacetEdge :=
  [ facet_edge 0 0 0 1; facet_edge 0 3 1 2; facet_edge 0 1 2 0;
    facet_edge 1 0 0 1; facet_edge 1 4 1 3; facet_edge 1 2 3 0;
    facet_edge 2 1 0 2; facet_edge 2 5 2 3; facet_edge 2 2 3 0;
    facet_edge 3 3 1 2; facet_edge 3 5 2 3; facet_edge 3 4 3 1 ].

(** The unit tetrahedron, no boundary set, no field. *)
Definition tetrahedron : MeshFile :=
  {| m_nV := 4; m_nE := 6; m_nF := 4; m_nC := 1;
     m_facet_edges := tetrahedron_facet_edges;
     m_boundaries := [];
     m_fields := [] |}.

(** The encoded tetrahedron. *)
Definition tetrahedron_file : buffer :=
  match writeMesh tetrahedron with
  | Ok b => b
  | Err _ => []
  end.

(** The header of the tetrahedron, with one vertex less. *)
Definition three_vertex_header : LisztHeader :=
  {| magic_number := LISZT_MAGIC_NUMBER;
     nV := 3; nE := 6; nF := 4; nC := 1; nFE := 12; nBoundaries := 0;
     field_table_index := 340; facet_edge_table := 52;
     boundary_set_table := 340 |}.

Definition ascii_bytes (s : string) : buffer := list_byte_of_string s.

(** The tetrahedron with two boundary sets, one of each interpretation,
    and two fields. *)
Definition tetrahedron_with_fields : MeshFile :=
  {| m_nV := 4; m_nE := 6; m_nF := 4; m_nC := 1;
     m_facet_edges := tetrahedron_facet_edges;
     m_boundaries :=
       [ {| b_type := IOElemType_value FACE_T;
            b_range := DirectRange 1 4;
            b_name := ascii_bytes "wall" |};
         {| b_type := set_agg_flag (IOElemType_value EDGE_T);
            b_range := IndirectRange 0 2;
            b_name := ascii_bytes "rim" |} ];
     m_fields :=
       [ {| f_domain := IOElemType_value VERTEX_T;
            f_range := {| base := DoubleKind; shape := Vector 3 |};
            f_nElems := 4;
            f_name := ascii_bytes "position";
            f_data := map byte.of_Z (map Z.of_nat (seq 1 96)) |};
         {| f_domain := IOElemType_value CELL_T;
            f_range := {| base := BoolKind; shape := Scalar |};
            f_nElems := 1;
            f_name := ascii_bytes "solid";
            f_data := [Byte.x01] |} ] |}.

(* ================================================================= *)
(** * Part III: properties                                            *)
(* ================================================================= *)

(** Splits the conjunctions of boolean hypotheses. *)
Ltac split_andb :=
  repeat match goal with
         | H : _ && _ = true |- _ => apply andb_true_iff in H as [? ?]
         end.

(** ** Bytes, integers and slices *)

Lemma flen_app (a b : buffer) : flen (a ++ b) = flen a + flen b.
Proof. unfold flen. rewrite length_app. lia. Qed.

Lemma flen_nonneg (a : buffer) : 0 <= flen a.
Proof. unfold flen. lia. Qed.

Lemma is_u8_spec v : is_u8 v = true <-> 0 <= v < 2 ^ 8.
Proof. unfold is_u8. rewrite andb_true_iff, Z.leb_le, Z.ltb_lt. tauto. Qed.

Lemma is_u32_spec v : is_u32 v = true <-> 0 <= v < 2 ^ 32.
Proof. unfold is_u32. rewrite andb_true_iff, Z.leb_le, Z.ltb_lt. tauto. Qed.

Lemma is_u64_spec v : is_u64 v = true <-> 0 <= v < 2 ^ 64.
Proof. unfold is_u64. rewrite andb_true_iff, Z.leb_le, Z.ltb_lt. tauto. Qed.

Lemma take_uint_le_split (n : nat) (v : Z) (rest : buffer) :
  take_uint n (le_split n v ++ rest) = (v mod 2 ^ (Z.of_nat n * 8), rest).
Proof.
  unfold take_uint.
  rewrite firstn_app, skipn_app, length_le_split, Nat.sub_diag.
  rewrite firstn_all2 by (rewrite length_le_split; lia).
  rewrite skipn_all2 by (rewrite length_le_split; lia).
  cbn [firstn skipn app]. rewrite app_nil_r, le_combine_split. reflexivity.
Qed.

Lemma take_u8 v rest :
  is_u8 v = true -> take_uint 1 (put_u8 v ++ rest) = (v, rest).
Proof.
  intros H%is_u8_spec. unfold put_u8. rewrite take_uint_le_split.
  rewrite Z.mod_small; [reflexivity | exact H].
Qed.

Lemma take_u32 v rest :
  is_u32 v = true -> take_uint 4 (put_u32 v ++ rest) = (v, rest).
Proof.
  intros H%is_u32_spec. unfold put_u32. rewrite take_uint_le_split.
  rewrite Z.mod_small; [reflexivity | exact H].
Qed.

Lemma take_u64 v rest :
  is_u64 v = true -> take_uint 8 (put_u64 v ++ rest) = (v, rest).
Proof.
  intros H%is_u64_spec. unfold put_u64. rewrite take_uint_le_split.
  rewrite Z.mod_small; [reflexivity | exact H].
Qed.

(** The slice of the middle of a buffer. *)
Lemma slice_middle (pre mid post : buffer) :
  slice (pre ++ mid ++ post) (flen pre) (length mid) = Ok mid.
Proof.
  unfold slice.
  assert (Hin : (0 <=? flen pre) && (flen pre + Z.of_nat (length mid)
                   <=? flen (pre ++ mid ++ post)) = true).
  { rewrite andb_true_iff, !Z.leb_le, !flen_app. unfold flen. lia. }
  rewrite Hin. unfold flen. rewrite Nat2Z.id.
  rewrite skipn_app, Nat.sub_diag, skipn_all2 by lia.
  cbn [skipn app].
  rewrite firstn_app, Nat.sub_diag, firstn_all2 by lia.
  cbn [firstn]. rewrite app_nil_r. reflexivity.
Qed.

Lemma slice_prefix (mid post : buffer) :
  slice (mid ++ post) 0 (length mid) = Ok mid.
Proof. exact (slice_middle [] mid post). Qed.

Lemma slice_length (buf : buffer) off n bs :
  slice buf off n = Ok bs -> length bs = n.
Proof.
  unfold slice.
  destruct ((0 <=? off) && (off + Z.of_nat n <=? flen buf)) eqn:E; [|discriminate].
  intros [= <-]. apply andb_true_iff in E as [E1 E2].
  apply Z.leb_le in E1, E2. unfold flen in E2.
  rewrite length_firstn, length_skipn. lia.
Qed.

(** ** The layout of the declared structs *)

Lemma sizeof_LisztHeader P : sizeof P LisztHeader_t = Z.of_nat HEADER_SIZE.
Proof. reflexivity. Qed.

Lemma sizeof_FileFacetEdge P : sizeof P FileFacetEdge_t = Z.of_nat FACET_EDGE_SIZE.
Proof. reflexivity. Qed.

Lemma sizeof_BoundarySet P : sizeof P BoundarySet_t = sizeof_enum P + 16.
Proof. cbn. lia. Qed.

Lemma length_put_FileFacetEdge r : length (put_FileFacetEdge r) = FACET_EDGE_SIZE.
Proof. reflexivity. Qed.

Lemma length_put_BoundarySet b : length (put_BoundarySet b) = BOUNDARY_SET_SIZE.
Proof. reflexivity. Qed.

Lemma length_put_FileField f : length (put_FileField f) = FILE_FIELD_SIZE.
Proof. reflexivity. Qed.

Lemma length_encodeHeader h : length (encodeHeader h) = HEADER_SIZE.
Proof. reflexivity. Qed.

(** A table of fixed-size records: its length, and where a record sits. *)
Lemma length_concat_fixed {A : Type} (put : A -> buffer) (size : nat) (l : list A) :
  (forall a, length (put a) = size) ->
  length (concat (map put l)) = (size * length l)%nat.
Proof.
  intros Hsize. induction l as [|a l IH]; cbn [map concat length].
  - lia.
  - rewrite length_app, Hsize, IH. lia.
Qed.

Lemma record_in_table {A : Type} (put : A -> buffer) (size : nat)
    (before : list A) (r : A) (after : list A) :
  (forall a, length (put a) = size) ->
  firstn size (skipn (size * length before)
                 (concat (map put (before ++ r :: after)))) = put r.
Proof.
  intros Hsize.
  rewrite map_app, concat_app. cbn [map concat].
  rewrite skipn_app.
  rewrite (length_concat_fixed put size before Hsize), Nat.sub_diag.
  rewrite skipn_all2 by (rewrite (length_concat_fixed put size before Hsize); lia).
  cbn [skipn app].
  rewrite firstn_app, Hsize, Nat.sub_diag, firstn_all2 by (rewrite Hsize; lia).
  cbn [firstn]. apply app_nil_r.
Qed.

(** ** [lMeshTypeSize] *)

Lemma lMeshTypeSize_cases (P : Platform) :
  lMeshTypeSize P LISZT_INT = sizeof_int P
  /\ lMeshTypeSize P LISZT_FLOAT = sizeof_float P
  /\ lMeshTypeSize P LISZT_DOUBLE = sizeof_double P
  /\ lMeshTypeSize P LISZT_BOOL = sizeof_bool P.
Proof. repeat split. Qed.

(** C3 does not hold on every platform: the sizes [lMeshTypeSize]
    returns are those of the host.  With avr-gcc the integer kind has size 2 and
    the double kind size 4; on 32-bit PowerPC Darwin the boolean kind has
    size 4. *)
Lemma lMeshTypeSize_host_dependent :
  lMeshTypeSize avr_gcc LISZT_INT = 2
  /\ lMeshTypeSize avr_gcc LISZT_DOUBLE = 4
  /\ lMeshTypeSize ppc_darwin LISZT_BOOL = 4.
Proof. repeat split. Qed.

(** C3, amended: on every platform whose [int], [float], [double] and
    [bool] are 4, 4, 8 and 1 bytes wide, [lMeshTypeSize] returns 4 for
    LISZT_INT, 4 for LISZT_FLOAT, 8 for LISZT_DOUBLE and 1 for
    LISZT_BOOL. *)
Theorem lMeshTypeSize_fixed_sizes (P : Platform)
    (Hint : sizeof_int P = 4) (Hfloat : sizeof_float P = 4)
    (Hdouble : sizeof_double P = 8) (Hbool : sizeof_bool P = 1) :
  lMeshTypeSize P LISZT_INT = 4
  /\ lMeshTypeSize P LISZT_FLOAT = 4
  /\ lMeshTypeSize P LISZT_DOUBLE = 8
  /\ lMeshTypeSize P LISZT_BOOL = 1.
Proof.
  destruct (lMeshTypeSize_cases P) as (Ei & Ef & Ed & Eb).
  rewrite Ei, Ef, Ed, Eb. auto.
Qed.

Lemma lMeshTypeSize_fixed_sizes_x86_64 :
  lMeshTypeSize x86_64_sysv LISZT_INT = 4
  /\ lMeshTypeSize x86_64_sysv LISZT_FLOAT = 4
  /\ lMeshTypeSize x86_64_sysv LISZT_DOUBLE = 8
  /\ lMeshTypeSize x86_64_sysv LISZT_BOOL = 1.
Proof.
  apply (lMeshTypeSize_fixed_sizes x86_64_sysv); reflexivity.
Defined.

Lemma kind_of_tag_unrecognized (typ : Z) :
  typ <> LISZT_INT -> typ <> LISZT_FLOAT ->
  typ <> LISZT_DOUBLE -> typ <> LISZT_BOOL ->
  kind_of_tag typ = None.
Proof.
  intros Hi Hf Hd Hb. unfold kind_of_tag.
  apply Z.eqb_neq in Hi, Hf, Hd, Hb. rewrite Hi, Hf, Hd, Hb. reflexivity.
Qed.


Lemma kind_of_tag_kind_tag (k : BaseKind) : kind_of_tag (kind_tag k) = Some k.
Proof. destruct k; reflexivity. Qed.

(** C4: a base-kind byte that is none of LISZT_INT, LISZT_FLOAT,
    LISZT_DOUBLE and LISZT_BOOL has size 0 for [lMeshTypeSize], on every
    platform, and a type tag with such a kind is rejected with
    UnsupportedType, as a checked struct and as 4 raw bytes, whatever
    its flags and shape data are. *)
Theorem unrecognized_kind_rejected (P : Platform) (lt : LisztType)
    (Hint : lt_type lt <> LISZT_INT) (Hfloat : lt_type lt <> LISZT_FLOAT)
    (Hdouble : lt_type lt <> LISZT_DOUBLE) (Hbool : lt_type lt <> LISZT_BOOL) :
  lMeshTypeSize P (lt_type lt) = 0
  /\ checkType lt = Err UnsupportedType
  /\ (forall raw, parse_LisztType raw = lt -> decodeType raw = Err UnsupportedType).
Proof.
  assert (Hcheck : checkType lt = Err UnsupportedType).
  { unfold checkType. rewrite kind_of_tag_unrecognized by assumption. reflexivity. }
  split; [|split].
  - unfold lMeshTypeSize.
    apply Z.eqb_neq in Hint, Hfloat, Hdouble, Hbool.
    rewrite Hint, Hfloat, Hdouble, Hbool. reflexivity.
  - exact Hcheck.
  - intros raw <-. exact Hcheck.
Qed.

Lemma unrecognized_kind_rejected_at_4 :
  lMeshTypeSize avr_gcc 4 = 0
  /\ checkType {| lt_type := 4; lt_flags := LISZT_VEC_FLAG; lt_data := (3, 0) |}
     = Err UnsupportedType
  /\ (forall raw,
        parse_LisztType raw
        = {| lt_type := 4; lt_flags := LISZT_VEC_FLAG; lt_data := (3, 0) |} ->
        decodeType raw = Err UnsupportedType).
Proof.
  apply (unrecognized_kind_rejected avr_gcc
           {| lt_type := 4; lt_flags := LISZT_VEC_FLAG; lt_data := (3, 0) |});
    discriminate.
Defined.

(** ** [elementByteSize] *)





(** ** The aggregate flag *)

(** C9: AGG_FLAG is bit 7 (128) and shares no bit with VERTEX_T, CELL_T,
    EDGE_T and FACE_T: for each of the four tags t, t AND AGG_FLAG = 0
    and (t OR AGG_FLAG) AND NOT AGG_FLAG = t; the flag reads as unset on
    t and as set on t OR AGG_FLAG, and clearing it gives t back.  The
    four flagged tags are distinct from each other and from the four
    plain ones, so the flag tells the two families apart and the kind
    stays readable under it. *)
Theorem agg_flag_disjoint :
  IOElemType_value AGG_FLAG = 128
  /\ Forall (fun t => flag_disjoint_from (IOElemType_value t))
            [VERTEX_T; CELL_T; EDGE_T; FACE_T]
  /\ NoDup (map IOElemType_value [VERTEX_T; CELL_T; EDGE_T; FACE_T]
            ++ map (fun t => set_agg_flag (IOElemType_value t))
                   [VERTEX_T; CELL_T; EDGE_T; FACE_T]).
Proof.
  split; [reflexivity|].
  split; [repeat constructor|].
  cbv. repeat constructor; cbn; intuition discriminate.
Qed.

(** The resolution rule on the tags: a record with a plain tag is read
    through the direct range, one with a flagged tag through the
    indirect range, on an empty range as on any other. *)
Lemma boundary_range_by_flag (lo hi nm : Z) :
  Forall (fun t =>
            boundary_range {| type := IOElemType_value t; range_lo := lo;
                              range_hi := hi; name_string := nm |}
            = DirectRange lo hi
            /\ boundary_range {| type := set_agg_flag (IOElemType_value t);
                                 range_lo := lo; range_hi := hi;
                                 name_string := nm |}
               = IndirectRange lo hi)
         [VERTEX_T; CELL_T; EDGE_T; FACE_T].
Proof. repeat constructor. Qed.

(** ** The header *)

(** C6: [LisztHeader] is packed, with its fields in the declared order
    and at their widths: magic_number at byte 0, the six 4-byte counts
    nV, nE, nF, nC, nFE, nBoundaries at bytes 4 to 24, the three 8-byte
    offsets field_table_index, facet_edge_table, boundary_set_table at
    bytes 28, 36 and 44; each field starts where the previous one ends,
    and the header is 52 bytes in all, on every platform. *)
Theorem header_layout (P : Platform) :
  layout P LisztHeader_t "" 0
  = [ ("magic_number", 0, 4);
      ("nV", 4, 4); ("nE", 8, 4); ("nF", 12, 4);
      ("nC", 16, 4); ("nFE", 20, 4); ("nBoundaries", 24, 4);
      ("field_table_index", 28, 8);
      ("facet_edge_table", 36, 8);
      ("boundary_set_table", 44, 8) ]%string
  /\ chain_end 0 (layout P LisztHeader_t "" 0) = Some 52
  /\ sizeof P LisztHeader_t = 52.
Proof. repeat split. Qed.

(** The header the codec writes is that struct: 52 bytes, each field at
    its place. *)
Lemma encodeHeader_layout (P : Platform) (h : LisztHeader) :
  length (encodeHeader h) = 52%nat
  /\ map (member_bytes (encodeHeader h)) (layout P LisztHeader_t "" 0)
     = [ put_u32 (magic_number h);
         put_u32 (nV h); put_u32 (nE h); put_u32 (nF h);
         put_u32 (nC h); put_u32 (nFE h); put_u32 (nBoundaries h);
         put_u64 (field_table_index h);
         put_u64 (facet_edge_table h);
         put_u64 (boundary_set_table h) ]
  /\ concat (map (member_bytes (encodeHeader h)) (layout P LisztHeader_t "" 0))
     = encodeHeader h.
Proof. repeat split. Qed.

(** ** Facet-edge records *)

Lemma encodeRecords_Ok {A : Type} (enc : nat -> A -> result buffer)
    (put : A -> buffer) (l : list A) :
  forall index tbl,
    encodeRecords enc l index = Ok tbl ->
    (forall i a, In a l -> forall bs, enc i a = Ok bs -> bs = put a) ->
    tbl = concat (map put l).
Proof.
  induction l as [|a l IH]; intros index tbl; cbn [encodeRecords map concat].
  - intros [= <-] _. reflexivity.
  - destruct (enc index a) as [bs|e] eqn:Ea; cbn [bind]; [|discriminate].
    destruct (encodeRecords enc l (S index)) as [rest|e] eqn:El; cbn [bind];
      [|discriminate].
    intros [= <-] Hput.
    rewrite (Hput index a (or_introl eq_refl) bs Ea).
    rewrite (IH (S index) rest El); [reflexivity|].
    intros i a' Hin. apply Hput. right. exact Hin.
Qed.

Lemma encodeFacetEdges_Ok h l tbl :
  encodeFacetEdges h l = Ok tbl -> tbl = concat (map put_FileFacetEdge l).
Proof.
  intros H. apply (encodeRecords_Ok _ put_FileFacetEdge l 0%nat tbl H).
  intros i a _ bs. unfold checkFacetEdge.
  destruct (ids_in_bounds h a); cbn [bind]; [|discriminate].
  intros [= <-]. reflexivity.
Qed.

Lemma chain_end_app (l1 l2 : list (string * Z * Z)) :
  forall from mid,
    chain_end from l1 = Some mid ->
    chain_end from (l1 ++ l2) = chain_end mid l2.
Proof.
  induction l1 as [|[[nm off] w] l1 IH]; intros from mid; cbn [chain_end app].
  - intros [= <-]. reflexivity.
  - destruct (off =? from); [apply IH | discriminate].
Qed.

Lemma chain_end_FileFacetEdge (P : Platform) (path : string) (off : Z) :
  chain_end off (layout P FileFacetEdge_t path off) = Some (off + 24).
Proof.
  cbn. rewrite !Z.eqb_refl.
  replace (off + 4 + 4 + 8 =? off + 4 + 4 + 4 + 4) with true
    by (symmetry; apply Z.eqb_eq; lia).
  f_equal. lia.
Qed.

(** The records of an array follow each other without padding. *)
Lemma chain_end_FileFacetEdge_array (P : Platform) (n : nat) :
  chain_end 0 (layout P (Tarray n FileFacetEdge_t) "" 0)
  = Some (24 * Z.of_nat n).
Proof.
  cbn [layout].
  match goal with
  | |- chain_end _ (?elems n 0%nat 0) = _ =>
      assert (Hgen : forall k i off,
                 chain_end off (elems k i off) = Some (off + 24 * Z.of_nat k))
  end.
  { induction k as [|k IH]; intros i off.
    - cbn. f_equal. lia.
    - rewrite (chain_end_app _ _ off (off + 24)).
      + change (sizeof P FileFacetEdge_t) with 24.
        rewrite IH. f_equal. lia.
      + apply chain_end_FileFacetEdge. }
  rewrite Hgen. reflexivity.
Qed.

(** C7: [FileFacetEdge] is packed: the face id at byte 0, the edge id at
    byte 4, then the two HalfFacets of 8 bytes, hf[0].cell, hf[0].vert,
    hf[1].cell, hf[1].vert at bytes 8, 12, 16 and 20; four bytes each,
    each field starting where the previous one ends, and 24 bytes in
    all, on every platform.  The records of a table of [n] follow each
    other without padding in 24 * n bytes. *)
Theorem facet_edge_layout (P : Platform) (n : nat) :
  layout P FileFacetEdge_t "" 0
  = [ ("face", 0, 4); ("edge", 4, 4);
      ("hf[0].cell", 8, 4); ("hf[0].vert", 12, 4);
      ("hf[1].cell", 16, 4); ("hf[1].vert", 20, 4) ]%string
  /\ chain_end 0 (layout P FileFacetEdge_t "" 0) = Some 24
  /\ sizeof P HalfFacet_t = 8
  /\ sizeof P FileFacetEdge_t = 24
  /\ sizeof P (Tarray n FileFacetEdge_t) = 24 * Z.of_nat n
  /\ chain_end 0 (layout P (Tarray n FileFacetEdge_t) "" 0)
     = Some (24 * Z.of_nat n).
Proof.
  repeat split.
  - cbn [sizeof]. change (sizeof P FileFacetEdge_t) with 24. lia.
  - apply chain_end_FileFacetEdge_array.
Qed.

(** The records the codec writes are that struct, and its tables are
    arrays of it: record number i is the 24 bytes from byte 24 * i on. *)
Lemma encodeFacetEdges_layout (P : Platform) (h : LisztHeader) (r : FileFacetEdge)
    (before after : list FileFacetEdge) :
  length (put_FileFacetEdge r) = 24%nat
  /\ map (member_bytes (put_FileFacetEdge r)) (layout P FileFacetEdge_t "" 0)
     = [ put_u32 (face r); put_u32 (edge r);
         put_u32 (cell (fst (hf r))); put_u32 (vert (fst (hf r)));
         put_u32 (cell (snd (hf r))); put_u32 (vert (snd (hf r))) ]
  /\ match encodeFacetEdges h (before ++ r :: after) with
     | Ok tbl =>
         length tbl = (24 * length (before ++ r :: after))%nat
         /\ firstn 24 (skipn (24 * length before) tbl) = put_FileFacetEdge r
     | Err _ => True
     end.
Proof.
  repeat split.
  destruct (encodeFacetEdges h (before ++ r :: after)) as [tbl|e] eqn:E;
    [|exact I].
  apply encodeFacetEdges_Ok in E. subst tbl. split.
  - apply (length_concat_fixed put_FileFacetEdge 24).
    exact length_put_FileFacetEdge.
  - apply (record_in_table put_FileFacetEdge 24).
    exact length_put_FileFacetEdge.
Qed.

(** ** Boundary-set records *)

(** C10: in [BoundarySet], start and left_id are the same 4 bytes, and
    end and right_id the same 4 bytes: id_t and lsize_t are both
    uint32_t, each union is 4 bytes wide and its two members start at
    the union's own offset, on every platform.  The record has one
    layout, whichever member is meant: the type tag, the two range
    words, the 8-byte name offset; with the 4-byte tag of x86-64 that
    is bytes 0, 4, 8 and 12 and 20 bytes in all, and a table of [n]
    records is 20 * n bytes. *)
Theorem boundary_set_layout (P : Platform) (b : BoundarySet) (n : nat) :
  id_t = Tuint32 /\ lsize_t = Tuint32
  /\ sizeof P id_t = 4 /\ sizeof P lsize_t = 4
  /\ sizeof P (Tunion [("start", id_t); ("left_id", lsize_t)]%string) = 4
  /\ sizeof P (Tunion [("end", id_t); ("right_id", lsize_t)]%string) = 4
  /\ layout P BoundarySet_t "" 0
     = [ ("type", 0, sizeof_enum P);
         ("start", sizeof_enum P, 4); ("left_id", sizeof_enum P, 4);
         ("end", sizeof_enum P + 4, 4); ("right_id", sizeof_enum P + 4, 4);
         ("name_string", sizeof_enum P + 4 + 4, 8) ]%string
  /\ layout x86_64_sysv BoundarySet_t "" 0
     = [ ("type", 0, 4);
         ("start", 4, 4); ("left_id", 4, 4);
         ("end", 8, 4); ("right_id", 8, 4);
         ("name_string", 12, 8) ]%string
  /\ sizeof x86_64_sysv BoundarySet_t = 20
  /\ sizeof x86_64_sysv (Tarray n BoundarySet_t) = 20 * Z.of_nat n
  /\ start b = left_id b /\ end_ b = right_id b.
Proof.
  repeat split.
  cbn [sizeof]. change (sizeof x86_64_sysv BoundarySet_t) with 20. lia.
Qed.

(** The record the codec writes is that struct on x86-64; a direct range
    and an indirect range of the same two words are written as the same
    bytes, and a table of records is 20 bytes a record whatever their
    interpretations are. *)
Lemma encodeBoundarySet_layout (b : BoundarySet)
    (t lo hi name_at : Z) (nm : buffer) (l : list BoundarySet) :
  length (put_BoundarySet b) = 20%nat
  /\ map (member_bytes (put_BoundarySet b)) (layout x86_64_sysv BoundarySet_t "" 0)
     = [ put_u32 (type b);
         put_u32 (start b); put_u32 (left_id b);
         put_u32 (end_ b); put_u32 (right_id b);
         put_u64 (name_string b) ]
  /\ put_BoundarySet
       (boundary_record {| b_type := t; b_range := DirectRange lo hi;
                           b_name := nm |} name_at)
     = put_BoundarySet
         (boundary_record {| b_type := t; b_range := IndirectRange lo hi;
                             b_name := nm |} name_at)
  /\ length (concat (map put_BoundarySet l)) = (20 * length l)%nat.
Proof.
  repeat split.
  apply (length_concat_fixed put_BoundarySet 20). exact length_put_BoundarySet.
Qed.

(** ** The magic-number gate *)

Lemma slice_0_firstn (buf : buffer) (n : nat) (bs : buffer) :
  slice buf 0 n = Ok bs -> bs = firstn n buf /\ length bs = n.
Proof.
  intros H. split; [|exact (slice_length _ _ _ _ H)].
  unfold slice in H.
  destruct ((0 <=? 0) && (0 + Z.of_nat n <=? flen buf)); [|discriminate].
  injection H as <-. reflexivity.
Qed.

Lemma decodeHeader_bad_magic (buf : buffer) :
  firstn 4 buf <> put_u32 LISZT_MAGIC_NUMBER ->
  decodeHeader buf = Err CorruptFile.
Proof.
  intros Hmagic. unfold decodeHeader.
  destruct (slice buf 0 4) as [m|e] eqn:Em; [|reflexivity].
  apply slice_0_firstn in Em as [-> Hlen].
  destruct (Z.eqb_spec (le_combine (firstn 4 buf)) LISZT_MAGIC_NUMBER) as [E|E];
    [|reflexivity].
  exfalso. apply Hmagic.
  rewrite <- (split_le_combine (firstn 4 buf)), Hlen, E. reflexivity.
Qed.

Lemma readMesh_bad_magic (P : Platform) (buf : buffer) :
  firstn 4 buf <> put_u32 LISZT_MAGIC_NUMBER ->
  readMesh P buf = Err CorruptFile.
Proof.
  intros Hmagic. unfold readMesh.
  rewrite (decodeHeader_bad_magic buf Hmagic). reflexivity.
Qed.

(** C8: a buffer whose first 4 bytes are not those of the magic constant
    0x18111022 fails to decode with CorruptFile, as a header and as a
    mesh; and so does every buffer [buf'] that starts with the same 4
    bytes, whatever follows them and even when nothing does: no other
    field takes part in the verdict. *)
Theorem magic_number_gate (P : Platform) (buf buf' : buffer)
    (Hmagic : firstn 4 buf <> put_u32 LISZT_MAGIC_NUMBER)
    (Hsame : firstn 4 buf' = firstn 4 buf) :
  put_u32 LISZT_MAGIC_NUMBER = [Byte.x22; Byte.x10; Byte.x11; Byte.x18]
  /\ decodeHeader buf = Err CorruptFile
  /\ readMesh P buf = Err CorruptFile
  /\ decodeHeader buf' = Err CorruptFile
  /\ readMesh P buf' = Err CorruptFile.
Proof.
  assert (Hmagic' : firstn 4 buf' <> put_u32 LISZT_MAGIC_NUMBER)
    by (rewrite Hsame; exact Hmagic).
  split; [reflexivity|].
  auto using decodeHeader_bad_magic, readMesh_bad_magic.
Qed.

(** ** Referential integrity of the facet-edge table *)

Lemma ids_in_bounds_false (h : LisztHeader) (r : FileFacetEdge) :
  ids_in_bounds h r = false <->
  nC h <= cell (fst (hf r)) \/ nC h <= cell (snd (hf r))
  \/ nV h <= vert (fst (hf r)) \/ nV h <= vert (snd (hf r))
  \/ nF h <= face r \/ nE h <= edge r.
Proof.
  unfold ids_in_bounds. rewrite !andb_false_iff, !Z.ltb_ge. tauto.
Qed.

Lemma slice_in_bounds (buf : buffer) (off : Z) (n : nat) :
  0 <= off -> off + Z.of_nat n <= flen buf ->
  slice buf off n = Ok (firstn n (skipn (Z.to_nat off) buf)).
Proof.
  intros H0 H1. unfold slice.
  apply Z.leb_le in H0, H1. rewrite H0, H1. reflexivity.
Qed.

Lemma facet_edge_at_next (buf : buffer) (off : Z) (i : nat) :
  facet_edge_at buf (off + Z.of_nat FACET_EDGE_SIZE) i = facet_edge_at buf off (S i).
Proof. unfold facet_edge_at. do 3 f_equal. lia. Qed.

Lemma decodeFacetEdges_first_violation (h : LisztHeader) (buf : buffer) :
  forall (n : nat) (off : Z) (index i : nat),
    (i < n)%nat -> 0 <= off ->
    off + Z.of_nat FACET_EDGE_SIZE * (Z.of_nat i + 1) <= flen buf ->
    ids_in_bounds h (facet_edge_at buf off i) = false ->
    exists j : nat,
      (j <= i)%nat
      /\ ids_in_bounds h (facet_edge_at buf off j) = false
      /\ (forall k, (k < j)%nat -> ids_in_bounds h (facet_edge_at buf off k) = true)
      /\ decodeRecords FACET_EDGE_SIZE
           (fun index bs => checkFacetEdge h index (parse_FileFacetEdge bs))
           buf off n index
         = Err (ReferentialIntegrity (index + j)).
Proof.
  induction n as [|n IH]; intros off index i Hi Hoff Hfit Hbad; [lia|].
  cbn [decodeRecords].
  rewrite slice_in_bounds by lia. cbn [bind].
  assert (E0 : parse_FileFacetEdge
                 (firstn FACET_EDGE_SIZE (skipn (Z.to_nat off) buf))
               = facet_edge_at buf off 0).
  { unfold facet_edge_at. do 3 f_equal. lia. }
  rewrite E0. unfold checkFacetEdge at 1.
  destruct (ids_in_bounds h (facet_edge_at buf off 0)) eqn:Efirst; cbn [bind].
  - destruct i as [|i]; [congruence|].
    destruct (IH (off + Z.of_nat FACET_EDGE_SIZE) (S index) i) as (j & Hj & Hjbad & Hbefore & Hdec).
    + lia.
    + lia.
    + lia.
    + rewrite facet_edge_at_next. exact Hbad.
    + exists (S j). split; [lia|]. split; [|split].
      * rewrite <- facet_edge_at_next. exact Hjbad.
      * intros [|k] Hk; [exact Efirst|].
        rewrite <- facet_edge_at_next. apply Hbefore. lia.
      * rewrite Hdec. cbn [bind]. do 2 f_equal. lia.
  - exists 0%nat. split; [lia|]. split; [exact Efirst|]. split.
    + intros k Hk. lia.
    + do 2 f_equal. lia.
Qed.

(** C2: in a facet-edge table of nFE records, let record [i] lie in the
    buffer and break one of the bounds (a HalfFacet cell id >= nC, a
    HalfFacet vertex id >= nV, the face id >= nF or the edge id >= nE).
    Then decodeFacetEdges fails with ReferentialIntegrity, and the index
    [j] the error carries is that of an offending record: the first one
    (every record before it is within the bounds), so [i] itself when no
    earlier record offends.  The result is that error and no sequence of
    records. *)
Theorem facet_edge_referential_integrity
    (h : LisztHeader) (buf : buffer) (off nFE : Z) (i : nat)
    (Hi : Z.of_nat i < nFE) (Hoff : 0 <= off)
    (Hfit : off + 24 * (Z.of_nat i + 1) <= flen buf)
    (Hbad : nC h <= cell (fst (hf (facet_edge_at buf off i)))
            \/ nC h <= cell (snd (hf (facet_edge_at buf off i)))
            \/ nV h <= vert (fst (hf (facet_edge_at buf off i)))
            \/ nV h <= vert (snd (hf (facet_edge_at buf off i)))
            \/ nF h <= face (facet_edge_at buf off i)
            \/ nE h <= edge (facet_edge_at buf off i)) :
  exists j : nat,
    (j <= i)%nat
    /\ ids_in_bounds h (facet_edge_at buf off j) = false
    /\ (forall k, (k < j)%nat -> ids_in_bounds h (facet_edge_at buf off k) = true)
    /\ decodeFacetEdges h buf off nFE = Err (ReferentialIntegrity j)
    /\ (forall l, decodeFacetEdges h buf off nFE <> Ok l).
Proof.
  apply ids_in_bounds_false in Hbad.
  destruct (decodeFacetEdges_first_violation h buf (Z.to_nat nFE) off 0 i)
    as (j & Hj & Hjbad & Hbefore & Hdec); try assumption; try lia.
  exists j. unfold decodeFacetEdges. rewrite Hdec. cbn [Nat.add].
  repeat split; try assumption. intros l. discriminate.
Qed.

Lemma facet_edge_referential_integrity_tetrahedron :
  exists j : nat,
    (j <= 5)%nat
    /\ ids_in_bounds three_vertex_header (facet_edge_at tetrahedron_file 52 j) = false
    /\ (forall k, (k < j)%nat ->
          ids_in_bounds three_vertex_header (facet_edge_at tetrahedron_file 52 k) = true)
    /\ decodeFacetEdges three_vertex_header tetrahedron_file 52 12
       = Err (ReferentialIntegrity j)
    /\ (forall l, decodeFacetEdges three_vertex_header tetrahedron_file 52 12 <> Ok l).
Proof.
  apply (facet_edge_referential_integrity
           three_vertex_header tetrahedron_file 52 12 5).
  - lia.
  - lia.
  - vm_compute. discriminate.
  - vm_compute. right. right. left. discriminate.
Defined.

Lemma magic_number_gate_tetrahedron :
  put_u32 LISZT_MAGIC_NUMBER = [Byte.x22; Byte.x10; Byte.x11; Byte.x18]
  /\ decodeHeader (Byte.x23 :: tl tetrahedron_file) = Err CorruptFile
  /\ readMesh x86_64_sysv (Byte.x23 :: tl tetrahedron_file) = Err CorruptFile
  /\ decodeHeader [Byte.x23; Byte.x10; Byte.x11; Byte.x18] = Err CorruptFile
  /\ readMesh x86_64_sysv [Byte.x23; Byte.x10; Byte.x11; Byte.x18]
     = Err CorruptFile.
Proof.
  apply (magic_number_gate x86_64_sysv (Byte.x23 :: tl tetrahedron_file)
           [Byte.x23; Byte.x10; Byte.x11; Byte.x18]).
  - vm_compute. discriminate.
  - vm_compute. reflexivity.
Defined.

(** ** Decoding what was encoded *)

Lemma mapM_Forall2 {A B : Type} (f : A -> result B) (l : list A) (l' : list B) :
  Forall2 (fun a b => f a = Ok b) l l' -> mapM f l = Ok l'.
Proof.
  induction 1 as [|a b l l' Hab _ IH]; cbn [mapM]; [reflexivity|].
  rewrite Hab, IH. reflexivity.
Qed.

(** A table read back: each chunk has the record size and decodes to its
    record at any index. *)
Lemma decodeRecords_table {A : Type} (size : nat) (dec : nat -> buffer -> result A)
    (buf : buffer) (chunks : list buffer) (recs : list A) :
  Forall2 (fun c r => length c = size /\ forall i, dec i c = Ok r) chunks recs ->
  forall (pre post : buffer) (index : nat),
    buf = pre ++ concat chunks ++ post ->
    decodeRecords size dec buf (flen pre) (length recs) index = Ok recs.
Proof.
  induction 1 as [|c r chunks recs [Hlen Hdec] _ IH]; intros pre post index Hbuf.
  - reflexivity.
  - cbn [length decodeRecords].
    assert (Hslice : slice buf (flen pre) size = Ok c).
    { rewrite Hbuf, <- Hlen. cbn [concat]. rewrite <- app_assoc.
      apply slice_middle. }
    rewrite Hslice. cbn [bind]. rewrite Hdec. cbn [bind].
    replace (flen pre + Z.of_nat size) with (flen (pre ++ c))
      by (rewrite flen_app; unfold flen; lia).
    rewrite (IH (pre ++ c) post (S index)).
    + reflexivity.
    + rewrite Hbuf. cbn [concat]. rewrite <- !app_assoc. reflexivity.
Qed.

Lemma encodeRecords_all {A : Type} (enc : nat -> A -> result buffer)
    (put : A -> buffer) (l : list A) :
  Forall (fun a => forall i, enc i a = Ok (put a)) l ->
  forall index, encodeRecords enc l index = Ok (concat (map put l)).
Proof.
  induction 1 as [|a l Ha _ IH]; intros index; cbn [encodeRecords map concat].
  - reflexivity.
  - rewrite Ha. cbn [bind]. rewrite IH. reflexivity.
Qed.

(** *** Names *)

Lemma scan_cstr_cstr (nm rest : buffer) :
  nul_free nm = true -> scan_cstr (cstr nm ++ rest) = Some nm.
Proof.
  unfold cstr. induction nm as [|b nm IH]; cbn [nul_free forallb app scan_cstr].
  - intros _. reflexivity.
  - intros [Hb Hnm]%andb_true_iff.
    apply negb_true_iff in Hb. rewrite Hb.
    unfold nul_free in IH. rewrite (IH Hnm). reflexivity.
Qed.

Lemma decodeName_at (pre nm post : buffer) :
  nul_free nm = true ->
  decodeName (pre ++ cstr nm ++ post) (flen pre) = Ok nm.
Proof.
  intros Hnm. unfold decodeName.
  assert (Hin : (0 <=? flen pre) && (flen pre <=? flen (pre ++ cstr nm ++ post)) = true).
  { rewrite andb_true_iff, !Z.leb_le, !flen_app. unfold flen. lia. }
  rewrite Hin. unfold flen. rewrite Nat2Z.id.
  rewrite skipn_app, Nat.sub_diag, skipn_all2 by lia. cbn [skipn app].
  rewrite (scan_cstr_cstr nm post Hnm). reflexivity.
Qed.

(** *** Records *)

Lemma parse_put_LisztType (lt : LisztType) (rest : buffer) :
  is_u8 (lt_type lt) = true -> is_u8 (lt_flags lt) = true ->
  is_u8 (fst (lt_data lt)) = true -> is_u8 (snd (lt_data lt)) = true ->
  parse_LisztType (put_LisztType lt ++ rest) = lt.
Proof.
  intros Ht Hf H0 H1. unfold parse_LisztType, put_LisztType.
  rewrite <- !app_assoc.
  rewrite (take_u8 _ _ Ht), (take_u8 _ _ Hf), (take_u8 _ _ H0), (take_u8 _ _ H1).
  destruct lt as [t f [d0 d1]]. reflexivity.
Qed.

Lemma parse_encodeHeader (h : LisztHeader) :
  header_ok h = true -> parse_LisztHeader (encodeHeader h) = h.
Proof.
  unfold header_ok. intros H. split_andb.
  rewrite <- (app_nil_r (encodeHeader h)).
  unfold parse_LisztHeader, encodeHeader. rewrite <- !app_assoc.
  repeat (rewrite take_u32 by assumption).
  repeat (rewrite take_u64 by assumption).
  destruct h. reflexivity.
Qed.

Lemma parse_put_FileFacetEdge (r : FileFacetEdge) :
  is_u32 (face r) = true -> is_u32 (edge r) = true ->
  is_u32 (cell (fst (hf r))) = true -> is_u32 (vert (fst (hf r))) = true ->
  is_u32 (cell (snd (hf r))) = true -> is_u32 (vert (snd (hf r))) = true ->
  parse_FileFacetEdge (put_FileFacetEdge r) = r.
Proof.
  intros. rewrite <- (app_nil_r (put_FileFacetEdge r)).
  unfold parse_FileFacetEdge, put_FileFacetEdge. rewrite <- !app_assoc.
  repeat (rewrite take_u32 by assumption).
  destruct r as [f e [[c0 v0] [c1 v1]]]. reflexivity.
Qed.

Lemma parse_put_BoundarySet (b : BoundarySet) :
  is_u32 (type b) = true -> is_u32 (range_lo b) = true ->
  is_u32 (range_hi b) = true -> is_u64 (name_string b) = true ->
  parse_BoundarySet (put_BoundarySet b) = b.
Proof.
  intros. rewrite <- (app_nil_r (put_BoundarySet b)).
  unfold parse_BoundarySet, put_BoundarySet. rewrite <- !app_assoc.
  repeat (rewrite take_u32 by assumption).
  repeat (rewrite take_u64 by assumption).
  destruct b. reflexivity.
Qed.

Lemma firstn_put_LisztType (lt : LisztType) (rest : buffer) :
  firstn 4 (put_LisztType lt ++ rest) = put_LisztType lt.
Proof. reflexivity. Qed.

Lemma skipn_put_LisztType (lt : LisztType) (rest : buffer) :
  skipn 4 (put_LisztType lt ++ rest) = rest.
Proof. reflexivity. Qed.

Lemma parse_put_FileField (f : FileField) :
  is_u32 (domain f) = true ->
  is_u8 (lt_type (range f)) = true -> is_u8 (lt_flags (range f)) = true ->
  is_u8 (fst (lt_data (range f))) = true -> is_u8 (snd (lt_data (range f))) = true ->
  is_u32 (nElems f) = true -> is_u64 (name f) = true -> is_u64 (data f) = true ->
  parse_FileField (put_FileField f) = f.
Proof.
  intros Hd Ht Hf H0 H1 Hn Hnm Hdt.
  rewrite <- (app_nil_r (put_FileField f)).
  unfold parse_FileField, put_FileField. rewrite <- !app_assoc.
  rewrite (take_u32 _ _ Hd).
  rewrite firstn_put_LisztType, skipn_put_LisztType.
  rewrite <- (app_nil_r (put_LisztType (range f))).
  rewrite (parse_put_LisztType _ _ Ht Hf H0 H1).
  rewrite (take_u32 _ _ Hn), (take_u64 _ _ Hnm), (take_u64 _ _ Hdt).
  destruct f. reflexivity.
Qed.

(** *** The facet-edge table *)

Lemma checkFacetEdge_put (h : LisztHeader) (r : FileFacetEdge) :
  facet_edge_ok h r = true ->
  forall i, checkFacetEdge h i (parse_FileFacetEdge (put_FileFacetEdge r)) = Ok r.
Proof.
  unfold facet_edge_ok. intros H i. split_andb.
  rewrite parse_put_FileFacetEdge by assumption.
  unfold checkFacetEdge.
  match goal with Hb : ids_in_bounds h r = true |- _ => rewrite Hb end.
  reflexivity.
Qed.

Lemma encodeFacetEdges_valid (h : LisztHeader) (l : list FileFacetEdge) :
  forallb (facet_edge_ok h) l = true ->
  encodeFacetEdges h l = Ok (concat (map put_FileFacetEdge l)).
Proof.
  intros Hall. unfold encodeFacetEdges. apply encodeRecords_all.
  apply Forall_forall. intros r Hr i.
  rewrite forallb_forall in Hall. specialize (Hall r Hr).
  unfold facet_edge_ok in Hall. split_andb. unfold checkFacetEdge.
  match goal with Hb : ids_in_bounds h r = true |- _ => rewrite Hb end.
  reflexivity.
Qed.

Lemma facet_edges_decode (h : LisztHeader) (l : list FileFacetEdge) :
  forallb (facet_edge_ok h) l = true ->
  Forall2 (fun c r => length c = FACET_EDGE_SIZE
                      /\ forall i, checkFacetEdge h i (parse_FileFacetEdge c) = Ok r)
          (map put_FileFacetEdge l) l.
Proof.
  induction l as [|r l IH]; cbn [forallb map]; [constructor|].
  intros [Hr Hl]%andb_true_iff. constructor; [|exact (IH Hl)].
  split; [reflexivity | exact (checkFacetEdge_put h r Hr)].
Qed.

(** *** The boundary-set table *)

Lemma boundary_range_record (b : Boundary) (o : Z) :
  branch_matches_flag b = true ->
  boundary_range (boundary_record b o) = b_range b.
Proof.
  unfold branch_matches_flag, boundary_range, boundary_record.
  intros H%eqb_prop.
  destruct (b_range b) as [s e|l r]; cbn [is_indirect type] in *;
    rewrite H; reflexivity.
Qed.

Lemma encodeBoundarySets_valid (l : list Boundary) :
  forallb boundary_ok l = true ->
  forall o i,
    encodeBoundarySets l o i
    = Ok (concat (map put_BoundarySet (boundary_records l o))).
Proof.
  induction l as [|b l IH]; cbn [forallb]; intros Hall o i; [reflexivity|].
  apply andb_true_iff in Hall as [Hb Hl].
  cbn [encodeBoundarySets boundary_records map concat].
  unfold boundary_ok in Hb. split_andb.
  repeat match goal with
         | H : branch_matches_flag _ = true |- _ => rewrite H; clear H
         | H : range_ordered _ = true |- _ => rewrite H; clear H
         end.
  cbn [andb]. rewrite (IH Hl). reflexivity.
Qed.

Lemma checkBoundarySet_put (b : Boundary) (o : Z) :
  boundary_ok b = true -> is_u64 o = true ->
  forall i,
    checkBoundarySet i (parse_BoundarySet (put_BoundarySet (boundary_record b o)))
    = Ok (boundary_record b o).
Proof.
  unfold boundary_ok. intros Hb Ho i. split_andb.
  rewrite parse_put_BoundarySet.
  - unfold checkBoundarySet. rewrite boundary_range_record by assumption.
    match goal with Hr : range_ordered _ = true |- _ => rewrite Hr end.
    reflexivity.
  - unfold boundary_record. destruct (b_range b); assumption.
  - unfold boundary_record.
    destruct (b_range b); cbn [range_words_ok range_lo] in *; split_andb; assumption.
  - unfold boundary_record.
    destruct (b_range b); cbn [range_words_ok range_hi] in *; split_andb; assumption.
  - unfold boundary_record. destruct (b_range b); exact Ho.
Qed.

Lemma boundaries_decode (l : list Boundary) :
  forallb boundary_ok l = true ->
  forall o,
    0 <= o -> o + flen (concat (map boundary_cstr l)) < 2 ^ 64 ->
    Forall2 (fun c r => length c = BOUNDARY_SET_SIZE
                        /\ forall i, checkBoundarySet i (parse_BoundarySet c) = Ok r)
            (map put_BoundarySet (boundary_records l o)) (boundary_records l o).
Proof.
  induction l as [|b l IH]; cbn [forallb]; intros Hall o Ho Hend; [constructor|].
  apply andb_true_iff in Hall as [Hb Hl].
  cbn [boundary_records map concat] in *. rewrite flen_app in Hend.
  pose proof (flen_nonneg (boundary_cstr b)).
  pose proof (flen_nonneg (concat (map boundary_cstr l))).
  constructor.
  - split; [reflexivity|]. apply checkBoundarySet_put; [exact Hb|].
    apply is_u64_spec. lia.
  - apply IH; [exact Hl| |]; unfold boundary_cstr in *; lia.
Qed.

Lemma boundaries_resolve (buf : buffer) (l : list Boundary) :
  forallb boundary_ok l = true ->
  forall pre post,
    buf = pre ++ concat (map boundary_cstr l) ++ post ->
    Forall2 (fun s b => resolveBoundary buf s = Ok b)
            (boundary_records l (flen pre)) l.
Proof.
  induction l as [|b l IH]; cbn [forallb]; intros Hall pre post Hbuf; [constructor|].
  apply andb_true_iff in Hall as [Hb Hl].
  cbn [boundary_records map concat] in *.
  constructor.
  - unfold resolveBoundary.
    assert (Hname : name_string (boundary_record b (flen pre)) = flen pre)
      by (unfold boundary_record; destruct (b_range b); reflexivity).
    assert (Htype : type (boundary_record b (flen pre)) = b_type b)
      by (unfold boundary_record; destruct (b_range b); reflexivity).
    unfold boundary_ok in Hb. split_andb.
    rewrite Hname, Htype, boundary_range_record by assumption.
    rewrite Hbuf. unfold boundary_cstr at 1. rewrite <- app_assoc.
    rewrite decodeName_at by assumption. cbn [bind].
    destruct b. reflexivity.
  - replace (flen pre + flen (cstr (b_name b))) with (flen (pre ++ boundary_cstr b))
      by (rewrite flen_app; reflexivity).
    apply (IH Hl _ post).
    rewrite Hbuf, <- !app_assoc. reflexivity.
Qed.

(** *** The field table *)

Lemma checkType_encodeType (td : TypeDescriptor) :
  checkType (encodeType td) = Ok td.
Proof. destruct td as [k [|len|rows cols]]; destruct k; reflexivity. Qed.

Lemma encodeType_u8 (td : TypeDescriptor) :
  shape_ok (shape td) = true ->
  is_u8 (lt_type (encodeType td)) = true
  /\ is_u8 (lt_flags (encodeType td)) = true
  /\ is_u8 (fst (lt_data (encodeType td))) = true
  /\ is_u8 (snd (lt_data (encodeType td))) = true.
Proof.
  destruct td as [k [|len|rows cols]]; cbn [shape shape_ok]; intros H;
    split_andb; destruct k; cbn; auto.
Qed.

Lemma checkField_put (P : Platform) (buf : buffer) (f : Field)
    (name_at data_at : Z) :
  field_ok P f = true -> is_u64 name_at = true -> is_u64 data_at = true ->
  data_at + flen (f_data f) <= flen buf ->
  checkField P buf
    (parse_FileField (put_FileField (field_record f name_at data_at)))
  = Ok (field_descriptor f name_at data_at).
Proof.
  unfold field_ok. intros Hf Hn Hd Hfit. split_andb.
  destruct (encodeType_u8 (f_range f)) as (Ht & Hfl & Hd0 & Hd1); [assumption|].
  rewrite parse_put_FileField by assumption.
  unfold checkField. cbn [range domain nElems name data field_record].
  rewrite checkType_encodeType. cbn [bind].
  fold (field_descriptor f name_at data_at).
  unfold dataLength. cbn [field_descriptor fd_nElems fd_range].
  match goal with Hlen : (flen (f_data f) =? _) = true |- _ =>
    apply Z.eqb_eq in Hlen; rewrite <- Hlen end.
  apply Z.leb_le in Hfit. rewrite Hfit. reflexivity.
Qed.

Lemma fields_decode (P : Platform) (buf : buffer) (l : list Field) :
  forallb (field_ok P) l = true -> flen buf < 2 ^ 64 ->
  forall name_at data_at,
    0 <= name_at -> name_at + flen (concat (map field_cstr l)) < 2 ^ 64 ->
    0 <= data_at -> data_at + flen (concat (map f_data l)) <= flen buf ->
    Forall2 (fun c d => length c = FILE_FIELD_SIZE
                        /\ forall i : nat,
                             checkField P buf (parse_FileField c) = Ok d)
            (map put_FileField (field_records l name_at data_at))
            (field_descriptors l name_at data_at).
Proof.
  intros Hall Hbuf. induction l as [|f l IH]; cbn [forallb] in Hall;
    intros name_at data_at Hn Hnend Hd Hdend; [constructor|].
  apply andb_true_iff in Hall as [Hf Hl].
  cbn [field_records field_descriptors map concat] in *.
  rewrite flen_app in Hnend, Hdend.
  pose proof (flen_nonneg (field_cstr f)).
  pose proof (flen_nonneg (f_data f)).
  pose proof (flen_nonneg (concat (map field_cstr l))).
  pose proof (flen_nonneg (concat (map f_data l))).
  constructor.
  - split; [reflexivity|]. intros _.
    apply checkField_put; [exact Hf| | |lia]; apply is_u64_spec; lia.
  - apply (IH Hl); unfold field_cstr in *; lia.
Qed.

Lemma fields_resolve (P : Platform) (buf : buffer) (l : list Field) :
  forallb (field_ok P) l = true ->
  forall p1 q1 p2 q2,
    buf = p1 ++ concat (map field_cstr l) ++ q1 ->
    buf = p2 ++ concat (map f_data l) ++ q2 ->
    Forall2 (fun d f => resolveField P buf d = Ok f)
            (field_descriptors l (flen p1) (flen p2)) l.
Proof.
  induction l as [|f l IH]; cbn [forallb]; intros Hall p1 q1 p2 q2 Hnames Hdata;
    [constructor|].
  apply andb_true_iff in Hall as [Hf Hl].
  cbn [field_descriptors map concat] in *.
  constructor.
  - unfold resolveField, readFieldData, dataLength.
    cbn [field_descriptor fd_name fd_data fd_nElems fd_range fd_domain].
    unfold field_ok in Hf. split_andb.
    match goal with Hlen : (flen (f_data f) =? _) = true |- _ =>
      apply Z.eqb_eq in Hlen; rewrite <- Hlen end.
    rewrite Hnames at 1. unfold field_cstr at 1. rewrite <- app_assoc.
    rewrite decodeName_at by assumption. cbn [bind].
    unfold flen at 2. rewrite Nat2Z.id.
    rewrite Hdata at 1. rewrite <- app_assoc.
    rewrite slice_middle. cbn [bind].
    destruct f. reflexivity.
  - replace (flen p1 + flen (cstr (f_name f))) with (flen (p1 ++ field_cstr f))
      by (rewrite flen_app; reflexivity).
    replace (flen p2 + flen (f_data f)) with (flen (p2 ++ f_data f))
      by (rewrite flen_app; reflexivity).
    apply (IH Hl _ q1 _ q2).
    + rewrite Hnames at 1. rewrite <- !app_assoc. reflexivity.
    + rewrite Hdata at 1. rewrite <- !app_assoc. reflexivity.
Qed.

Lemma length_boundary_records (l : list Boundary) :
  forall o, length (boundary_records l o) = length l.
Proof. induction l as [|b l IH]; intros o; cbn; [|rewrite IH]; reflexivity. Qed.

Lemma length_field_descriptors (l : list Field) :
  forall n d, length (field_descriptors l n d) = length l.
Proof. induction l as [|f l IH]; intros n d; cbn; [|rewrite IH]; reflexivity. Qed.

Lemma length_field_records (l : list Field) :
  forall n d, length (field_records l n d) = length l.
Proof. induction l as [|f l IH]; intros n d; cbn; [|rewrite IH]; reflexivity. Qed.

(** *** The header *)

Lemma firstn_4_encodeHeader (h : LisztHeader) (tail : buffer) :
  firstn 4 (encodeHeader h ++ tail) = put_u32 (magic_number h).
Proof. reflexivity. Qed.

Lemma decodeHeader_encodeHeader (h : LisztHeader) (tail : buffer) :
  header_ok h = true ->
  magic_number h = LISZT_MAGIC_NUMBER ->
  offset_ok (encodeHeader h ++ tail) (field_table_index h) = true ->
  offset_ok (encodeHeader h ++ tail) (facet_edge_table h) = true ->
  offset_ok (encodeHeader h ++ tail) (boundary_set_table h) = true ->
  decodeHeader (encodeHeader h ++ tail) = Ok h.
Proof.
  intros Hok Hmagic Hfti Hfet Hbst. unfold decodeHeader.
  assert (H4 : slice (encodeHeader h ++ tail) 0 4 = Ok (put_u32 (magic_number h))).
  { rewrite slice_in_bounds.
    - cbn [Z.to_nat skipn]. rewrite firstn_4_encodeHeader. reflexivity.
    - lia.
    - rewrite flen_app. pose proof (flen_nonneg tail).
      change (flen (encodeHeader h)) with 52. lia. }
  rewrite H4. unfold put_u32. rewrite le_combine_split, Hmagic.
  change (LISZT_MAGIC_NUMBER mod 2 ^ (Z.of_nat 4 * 8) =? LISZT_MAGIC_NUMBER) with true.
  cbv iota.
  change HEADER_SIZE with (length (encodeHeader h)) at 1.
  rewrite slice_prefix, (parse_encodeHeader h Hok), Hfti, Hfet, Hbst.
  reflexivity.
Qed.

(** ** The round trip *)

(** C1: on every platform, for every valid mesh M (its data blocks as
    long as the element sizes of the platform make them), writeMesh M
    succeeds, and readMesh of the buffer it produces succeeds and gives
    M back: the same counts,
    the same facet-edge records, the same boundary sets (tag, range and
    name) and the same fields, with the same bytes of data.  The header
    of the buffer decodes to the counts and offsets of M, and the buffer
    has the size the assigned offsets give. *)
Theorem write_read_roundtrip (P : Platform) (M : MeshFile)
    (Hvalid : valid_mesh P M = true) :
  exists buf : buffer,
    writeMesh M = Ok buf
    /\ readMesh P buf = Ok M
    /\ decodeHeader buf = Ok (mesh_header M)
    /\ flen buf = file_size M.
Proof.
  unfold valid_mesh in Hvalid. split_andb.
  match goal with H : forallb (facet_edge_ok _) _ = true |- _ => rename H into Hfe end.
  match goal with H : forallb boundary_ok _ = true |- _ => rename H into Hbs end.
  match goal with H : forallb (field_ok P) _ = true |- _ => rename H into Hfs end.
  match goal with H : is_u64 (file_size M) = true |- _ =>
    apply is_u64_spec in H; rename H into Hsize end.
  set (h := mesh_header M) in *.
  set (BN := concat (map boundary_cstr (m_boundaries M))).
  set (FN := concat (map field_cstr (m_fields M))).
  set (FE := concat (map put_FileFacetEdge (m_facet_edges M))).
  set (BS := concat (map put_BoundarySet
                       (boundary_records (m_boundaries M) boundary_names_at))).
  set (FT := encodeFieldTable (m_fields M) (field_names_at M) (field_blocks_at M)).
  set (D := concat (map f_data (m_fields M))).
  set (buf := encodeHeader h ++ BN ++ FN ++ FE ++ BS ++ FT ++ D).
  (* the sizes of the parts *)
  assert (LH : flen (encodeHeader h) = 52) by reflexivity.
  assert (LFE : flen FE = 24 * Z.of_nat (length (m_facet_edges M))).
  { unfold flen, FE.
    rewrite (length_concat_fixed put_FileFacetEdge FACET_EDGE_SIZE)
      by exact length_put_FileFacetEdge.
    unfold FACET_EDGE_SIZE. lia. }
  assert (LBS : flen BS = 20 * Z.of_nat (length (m_boundaries M))).
  { unfold flen, BS.
    rewrite (length_concat_fixed put_BoundarySet BOUNDARY_SET_SIZE)
      by exact length_put_BoundarySet.
    rewrite length_boundary_records. unfold BOUNDARY_SET_SIZE. lia. }
  assert (LFT : flen FT = 4 + 28 * Z.of_nat (length (m_fields M))).
  { unfold FT, encodeFieldTable. rewrite flen_app. unfold flen at 2.
    rewrite (length_concat_fixed put_FileField FILE_FIELD_SIZE)
      by exact length_put_FileField.
    rewrite length_field_records. change (flen (put_u32 _)) with 4.
    unfold FILE_FIELD_SIZE. lia. }
  assert (O0 : boundary_names_at = 52) by reflexivity.
  assert (O1 : field_names_at M = 52 + flen BN) by reflexivity.
  assert (O2 : facet_edges_at M = 52 + flen BN + flen FN) by reflexivity.
  assert (O3 : boundary_sets_at M = 52 + flen BN + flen FN + flen FE)
    by (rewrite LFE; reflexivity).
  assert (O4 : field_table_at M = 52 + flen BN + flen FN + flen FE + flen BS)
    by (rewrite LFE, LBS; reflexivity).
  assert (O5 : field_blocks_at M
               = 52 + flen BN + flen FN + flen FE + flen BS + flen FT)
    by (rewrite LFE, LBS, LFT; unfold field_blocks_at; rewrite O4, LFE, LBS;
        unfold FILE_FIELD_SIZE; lia).
  assert (Lsum : flen buf = 52 + flen BN + flen FN + flen FE
                            + flen BS + flen FT + flen D)
    by (unfold buf; rewrite !flen_app; lia).
  assert (Lbuf : flen buf = file_size M).
  { rewrite Lsum. unfold file_size. rewrite O5. reflexivity. }
  pose proof (flen_nonneg BN). pose proof (flen_nonneg FN).
  pose proof (flen_nonneg FE). pose proof (flen_nonneg BS).
  pose proof (flen_nonneg FT). pose proof (flen_nonneg D).
  assert (Hsize' : flen buf < 2 ^ 64) by (rewrite Lbuf; lia).
  assert (Hh : decodeHeader buf = Ok h).
    { unfold buf. apply decodeHeader_encodeHeader.
      - unfold header_ok, h, mesh_header.
        cbn [magic_number nV nE nF nC nFE nBoundaries field_table_index
             facet_edge_table boundary_set_table].
        rewrite !andb_true_iff. repeat split; try assumption; try reflexivity;
          apply is_u64_spec; lia.
      - reflexivity.
      - fold buf. unfold offset_ok, h, mesh_header. cbn [field_table_index].
        apply andb_true_iff. rewrite !Z.leb_le. change (Z.of_nat HEADER_SIZE) with 52. lia.
      - fold buf. unfold offset_ok, h, mesh_header. cbn [facet_edge_table].
        apply andb_true_iff. rewrite !Z.leb_le. change (Z.of_nat HEADER_SIZE) with 52. lia.
      - fold buf. unfold offset_ok, h, mesh_header. cbn [boundary_set_table].
        apply andb_true_iff. rewrite !Z.leb_le. change (Z.of_nat HEADER_SIZE) with 52. lia. }
  exists buf. split; [|split; [|split; [exact Hh | exact Lbuf]]].
  - (* the writer succeeds *)
    unfold writeMesh. fold h.
    rewrite (encodeFacetEdges_valid h _ Hfe). cbn [bind].
    rewrite (encodeBoundarySets_valid _ Hbs). cbn [bind].
    reflexivity.
  - (* the reader gives the mesh back *)
    unfold readMesh.
    rewrite Hh. cbn [bind].
    (* the facet-edge table *)
    assert (Hfedec : decodeFacetEdges h buf (facet_edge_table h) (nFE h)
                     = Ok (m_facet_edges M)).
    { unfold decodeFacetEdges, h, mesh_header. cbn [facet_edge_table nFE]. fold h.
      rewrite Nat2Z.id.
      replace (facet_edges_at M) with (flen (encodeHeader h ++ BN ++ FN))
        by (rewrite !flen_app; lia).
      apply (decodeRecords_table _ _ buf (map put_FileFacetEdge (m_facet_edges M))
               _ (facet_edges_decode h _ Hfe) _ (BS ++ FT ++ D)).
      unfold buf. fold FE. rewrite <- !app_assoc. reflexivity. }
    rewrite Hfedec. cbn [bind].
    (* the boundary-set table *)
    assert (Hbsdec : decodeBoundarySets buf (boundary_set_table h) (nBoundaries h)
                     = Ok (boundary_records (m_boundaries M) boundary_names_at)).
    { unfold decodeBoundarySets, h, mesh_header. cbn [boundary_set_table nBoundaries].
      fold h. rewrite Nat2Z.id.
      replace (boundary_sets_at M) with (flen (encodeHeader h ++ BN ++ FN ++ FE))
        by (rewrite !flen_app; lia).
      rewrite <- (length_boundary_records (m_boundaries M) boundary_names_at).
      apply (decodeRecords_table _ _ buf
               (map put_BoundarySet (boundary_records (m_boundaries M) boundary_names_at))
               _ (boundaries_decode _ Hbs boundary_names_at ltac:(lia) ltac:(fold BN; lia))
               _ (FT ++ D)).
      unfold buf. fold BS. rewrite <- !app_assoc. reflexivity. }
    rewrite Hbsdec. cbn [bind].
    (* the field table *)
    assert (Hftdec : decodeFieldTable P buf (field_table_index h)
                     = Ok (field_descriptors (m_fields M) (field_names_at M)
                             (field_blocks_at M))).
    { unfold decodeFieldTable, h, mesh_header. cbn [field_table_index]. fold h.
      assert (Hcnt : slice buf (field_table_at M) 4
                     = Ok (put_u32 (Z.of_nat (length (m_fields M))))).
      { replace (field_table_at M)
          with (flen (encodeHeader h ++ BN ++ FN ++ FE ++ BS))
          by (rewrite !flen_app; lia).
        change 4%nat with (length (put_u32 (Z.of_nat (length (m_fields M))))).
        replace buf with ((encodeHeader h ++ BN ++ FN ++ FE ++ BS)
                            ++ put_u32 (Z.of_nat (length (m_fields M)))
                            ++ (concat (map put_FileField
                                          (field_records (m_fields M) (field_names_at M)
                                             (field_blocks_at M))) ++ D)).
        - apply slice_middle.
        - unfold buf, FT, encodeFieldTable. rewrite <- !app_assoc. reflexivity. }
      rewrite Hcnt. cbn [bind]. unfold put_u32 at 1. rewrite le_combine_split.
      change (2 ^ (Z.of_nat 4 * 8)) with (2 ^ 32).
      match goal with Hc : is_u32 (Z.of_nat (length (m_fields M))) = true |- _ =>
        apply is_u32_spec in Hc; rewrite (Z.mod_small _ _ Hc) end.
      rewrite Nat2Z.id.
      replace (field_table_at M + 4)
        with (flen ((encodeHeader h ++ BN ++ FN ++ FE ++ BS)
                      ++ put_u32 (Z.of_nat (length (m_fields M)))))
        by (rewrite !flen_app; change (flen (put_u32 _)) with 4; lia).
      pose proof (decodeRecords_table FILE_FIELD_SIZE
                    (fun _ bs => checkField P buf (parse_FileField bs)) buf
                    (map put_FileField
                       (field_records (m_fields M) (field_names_at M) (field_blocks_at M)))
                    _ (fields_decode P buf (m_fields M) Hfs Hsize'
                         (field_names_at M) (field_blocks_at M)
                         ltac:(lia) ltac:(fold FN; lia) ltac:(lia) ltac:(fold D; lia))
                    ((encodeHeader h ++ BN ++ FN ++ FE ++ BS)
                       ++ put_u32 (Z.of_nat (length (m_fields M))))
                    D 0%nat) as Hd.
      rewrite length_field_descriptors in Hd. apply Hd.
      unfold buf, FT, encodeFieldTable. rewrite <- !app_assoc. reflexivity. }
    rewrite Hftdec. cbn [bind].
    (* the names and the data blocks *)
    rewrite (mapM_Forall2 _ _ (m_boundaries M)).
    2:{ change boundary_names_at with (flen (encodeHeader h)).
        apply (boundaries_resolve buf _ Hbs _ (FN ++ FE ++ BS ++ FT ++ D)).
        reflexivity. }
    cbn [bind].
    rewrite (mapM_Forall2 _ _ (m_fields M)).
    2:{ replace (field_names_at M) with (flen (encodeHeader h ++ BN))
          by (rewrite !flen_app; lia).
        replace (field_blocks_at M)
          with (flen (encodeHeader h ++ BN ++ FN ++ FE ++ BS ++ FT))
          by (rewrite !flen_app; lia).
        apply (fields_resolve P buf _ Hfs _ (FE ++ BS ++ FT ++ D) _ []).
        - unfold buf. fold FN. rewrite <- !app_assoc. reflexivity.
        - unfold buf. fold D. rewrite <- !app_assoc, app_nil_r. reflexivity. }
    cbn [bind]. unfold h, mesh_header. cbn [nV nE nF nC].
    destruct M. reflexivity.
Qed.

Lemma write_read_roundtrip_tetrahedron :
  exists buf : buffer,
    writeMesh tetrahedron_with_fields = Ok buf
    /\ readMesh x86_64_sysv buf = Ok tetrahedron_with_fields
    /\ decodeHeader buf = Ok (mesh_header tetrahedron_with_fields)
    /\ flen buf = file_size tetrahedron_with_fields.
Proof.
  apply (write_read_roundtrip x86_64_sysv tetrahedron_with_fields).
  vm_compute. reflexivity.
Defined.

(** ** The scenarios of the format specification *)

(** After a successful header decode the magic number is the constant
    and each table offset lies between the header and the end of the
    file. *)
Lemma decodeHeader_offsets (buf : buffer) (h : LisztHeader) :
  decodeHeader buf = Ok h ->
  magic_number h = LISZT_MAGIC_NUMBER
  /\ 52 <= field_table_index h <= flen buf
  /\ 52 <= facet_edge_table h <= flen buf
  /\ 52 <= boundary_set_table h <= flen buf.
Proof.
  unfold decodeHeader.
  destruct (slice buf 0 4) as [m|e] eqn:Em; [|discriminate].
  destruct (Z.eqb_spec (le_combine m) LISZT_MAGIC_NUMBER) as [Emagic|];
    [|discriminate].
  destruct (slice buf 0 HEADER_SIZE) as [hb|e] eqn:Eh; [|discriminate].
  destruct (offset_ok buf (field_table_index (parse_LisztHeader hb))
            && offset_ok buf (facet_edge_table (parse_LisztHeader hb))
            && offset_ok buf (boundary_set_table (parse_LisztHeader hb))) eqn:Eok;
    [|discriminate].
  intros [= <-]. unfold offset_ok in Eok. split_andb.
  repeat match goal with H : (_ <=? _) = true |- _ => apply Z.leb_le in H end.
  change (Z.of_nat HEADER_SIZE) with 52 in *.
  split; [|lia].
  apply slice_0_firstn in Em as [-> _]. apply slice_0_firstn in Eh as [-> _].
  rewrite <- Emagic. unfold parse_LisztHeader, take_uint.
  cbn [magic_number]. rewrite firstn_firstn. reflexivity.
Qed.

(** The unit tetrahedron without boundary sets and fields: 344 bytes,
    whose header decodes to the counts 4, 6, 4, 1, 12 and 0. *)
Example tetrahedron_header :
  flen tetrahedron_file = 344
  /\ decodeHeader tetrahedron_file
     = Ok {| magic_number := LISZT_MAGIC_NUMBER;
             nV := 4; nE := 6; nF := 4; nC := 1; nFE := 12; nBoundaries := 0;
             field_table_index := 340; facet_edge_table := 52;
             boundary_set_table := 340 |}
  /\ readMesh x86_64_sysv tetrahedron_file = Ok tetrahedron.
Proof. repeat split; vm_compute; reflexivity. Qed.

(** One byte less and the decode fails with Truncated. *)
Example tetrahedron_truncated :
  readMesh x86_64_sysv (removelast tetrahedron_file) = Err Truncated.
Proof. vm_compute. reflexivity. Qed.

(** The reserved shape flag 2 is UnsupportedType, for each base kind. *)
Example reserved_shape_flag (k : BaseKind) (d0 d1 : Z) :
  checkType {| lt_type := kind_tag k; lt_flags := 2; lt_data := (d0, d1) |}
  = Err UnsupportedType.
Proof. destruct k; reflexivity. Qed.

(** A reversed range is InvalidRange with the index of its record, for
    the reader and for the writer. *)
Example reversed_range :
  decodeBoundarySets
    (put_BoundarySet {| type := IOElemType_value FACE_T; range_lo := 0;
                        range_hi := 4; name_string := 52 |}
       ++ put_BoundarySet {| type := IOElemType_value EDGE_T; range_lo := 3;
                             range_hi := 2; name_string := 52 |})
    0 2
  = Err (InvalidRange 1)
  /\ encodeBoundarySets
       [ {| b_type := IOElemType_value FACE_T; b_range := DirectRange 0 4;
            b_name := [] |};
         {| b_type := IOElemType_value EDGE_T; b_range := DirectRange 3 2;
            b_name := [] |} ] 52 0
     = Err (InvalidRange 1).
Proof. split; vm_compute; reflexivity. Qed.

(* ================================================================= *)
(** * Part IV: further properties of the declarations                 *)
(* ================================================================= *)

(** ** [lMeshTypeSize] *)

(** X1: where the four native types have a positive size, [lMeshTypeSize]
    returns 0 exactly for the values that are none of LISZT_INT,
    LISZT_FLOAT, LISZT_DOUBLE and LISZT_BOOL: the size 0 tells an
    unknown kind from a known one. *)
Theorem lMeshTypeSize_zero_iff (P : Platform) (typ : Z)
    (Hint : 0 < sizeof_int P) (Hfloat : 0 < sizeof_float P)
    (Hdouble : 0 < sizeof_double P) (Hbool : 0 < sizeof_bool P) :
  lMeshTypeSize P typ = 0
  <-> (typ <> LISZT_INT /\ typ <> LISZT_FLOAT
       /\ typ <> LISZT_DOUBLE /\ typ <> LISZT_BOOL).
Proof.
  unfold lMeshTypeSize.
  destruct (Z.eqb_spec typ LISZT_INT) as [->|Hi].
  { split; [lia | intros [H _]; congruence]. }
  destruct (Z.eqb_spec typ LISZT_FLOAT) as [->|Hf].
  { split; [lia | intros (_ & H & _); congruence]. }
  destruct (Z.eqb_spec typ LISZT_DOUBLE) as [->|Hd].
  { split; [lia | intros (_ & _ & H & _); congruence]. }
  destruct (Z.eqb_spec typ LISZT_BOOL) as [->|Hb].
  { split; [lia | intros (_ & _ & _ & H); congruence]. }
  split; auto.
Qed.

Lemma lMeshTypeSize_zero_iff_x86_64 :
  lMeshTypeSize x86_64_sysv 4 = 0
  <-> (4 <> LISZT_INT /\ 4 <> LISZT_FLOAT /\ 4 <> LISZT_DOUBLE /\ 4 <> LISZT_BOOL).
Proof.
  apply (lMeshTypeSize_zero_iff x86_64_sysv 4); reflexivity.
Defined.

(** X2: the size of the kind held in a byte does not depend on whether
    [char] is signed: for every byte, [lMeshTypeSize] returns the same
    for the byte read as a signed char and as an unsigned one. *)
Theorem lMeshTypeSize_char_signedness (P : Platform) (b : Z)
    (Hbyte : 0 <= b < 256) :
  lMeshTypeSize P (signed_char_value b) = lMeshTypeSize P b.
Proof.
  unfold signed_char_value.
  destruct (Z.ltb_spec b 128) as [Hlow|Hhigh]; [reflexivity|].
  unfold lMeshTypeSize, LISZT_INT, LISZT_FLOAT, LISZT_DOUBLE, LISZT_BOOL.
  repeat match goal with
         | |- context [?x =? ?y] => destruct (Z.eqb_spec x y); try lia
         end.
Qed.

Lemma lMeshTypeSize_char_signedness_255 :
  lMeshTypeSize ppc_darwin (signed_char_value 255) = lMeshTypeSize ppc_darwin 255.
Proof.
  apply (lMeshTypeSize_char_signedness ppc_darwin 255). lia.
Defined.

(** ** [LisztType] and [FileField] *)

(** X4: [LisztType] is 4 bytes on every platform: the base kind, the
    flags and the two bytes of shape data at bytes 0, 1, 2 and 3.
    [FileField] holds the domain tag, that type tag right after it, the
    4-byte element count and the two 8-byte offsets, name then data, in
    24 bytes more than the enum's own; on x86-64, with its 4-byte enum,
    these are bytes 0, 4, 8, 12 and 20 and 28 bytes in all, and with a
    1-byte enum the struct is 25 bytes. *)
Theorem file_field_layout (P : Platform) :
  layout P LisztType_t "" 0
  = [ ("type", 0, 1); ("flags", 1, 1); ("data[0]", 2, 1); ("data[1]", 3, 1) ]%string
  /\ sizeof P LisztType_t = 4
  /\ layout P FileField_t "" 0
     = [ ("domain", 0, sizeof_enum P);
         ("range.type", sizeof_enum P, 1);
         ("range.flags", sizeof_enum P + 1, 1);
         ("range.data[0]", sizeof_enum P + 1 + 1, 1);
         ("range.data[1]", sizeof_enum P + 1 + 1 + 1, 1);
         ("nElems", sizeof_enum P + 4, 4);
         ("name", sizeof_enum P + 4 + 4, 8);
         ("data", sizeof_enum P + 4 + 4 + 8, 8) ]%string
  /\ sizeof P FileField_t = sizeof_enum P + 24
  /\ layout x86_64_sysv FileField_t "" 0
     = [ ("domain", 0, 4);
         ("range.type", 4, 1); ("range.flags", 5, 1);
         ("range.data[0]", 6, 1); ("range.data[1]", 7, 1);
         ("nElems", 8, 4); ("name", 12, 8); ("data", 20, 8) ]%string
  /\ sizeof x86_64_sysv FileField_t = 28
  /\ sizeof arm_short_enums FileField_t = 25.
Proof. repeat split. Qed.

(** ** The element-type tags *)

(** X6: every tag value below AGG_FLAG, whatever kind it stands for
    ([TYPE_SIZE] and any kind added below 128 included), shares no bit
    with the flag: the flag reads as unset on it and as set once OR-ed
    in, and clearing the flag gives the value back. *)
Theorem agg_flag_below_128 (v : Z)
    (Hlow : 0 <= v < IOElemType_value AGG_FLAG) :
  flag_disjoint_from v.
Proof.
  assert (Hall :
    forallb (fun n =>
               let v := Z.of_nat n in
               (Z.land v (IOElemType_value AGG_FLAG) =? 0)
               && (Z.land (Z.lor v (IOElemType_value AGG_FLAG))
                     (Z.lnot (IOElemType_value AGG_FLAG)) =? v)
               && negb (has_agg_flag v)
               && has_agg_flag (set_agg_flag v)
               && (clear_agg_flag (set_agg_flag v) =? v)
               && (clear_agg_flag v =? v))
            (seq 0 128) = true) by (vm_compute; reflexivity).
  rewrite forallb_forall in Hall.
  change (IOElemType_value AGG_FLAG) with 128 in Hlow.
  specialize (Hall (Z.to_nat v)).
  rewrite Z2Nat.id in Hall by lia.
  assert (Hin : In (Z.to_nat v) (seq 0 128)) by (apply in_seq; lia).
  specialize (Hall Hin). cbv zeta in Hall.
  rewrite !andb_true_iff, !Z.eqb_eq, negb_true_iff in Hall.
  unfold flag_disjoint_from. tauto.
Qed.

Lemma agg_flag_below_128_TYPE_SIZE :
  flag_disjoint_from (IOElemType_value TYPE_SIZE).
Proof.
  apply (agg_flag_below_128 (IOElemType_value TYPE_SIZE)).
  cbn. lia.
Defined.

(** X7: TYPE_SIZE is the number of element kinds: the values below it
    are exactly those of VERTEX_T, CELL_T, EDGE_T and FACE_T; the six
    enumerators have six different values, and TYPE_SIZE lies below
    AGG_FLAG. *)
Theorem type_size_counts_kinds (v : Z) :
  (0 <= v < IOElemType_value TYPE_SIZE
   <-> In v (map IOElemType_value [VERTEX_T; CELL_T; EDGE_T; FACE_T]))
  /\ NoDup (map IOElemType_value
              [VERTEX_T; CELL_T; EDGE_T; FACE_T; TYPE_SIZE; AGG_FLAG])
  /\ IOElemType_value TYPE_SIZE < IOElemType_value AGG_FLAG.
Proof.
  split; [|split].
  - cbn. lia.
  - cbv. repeat constructor; cbn; intuition discriminate.
  - reflexivity.
Qed.

(** X8: the ordering pairs the duals: VERTEX_T with CELL_T and EDGE_T
    with FACE_T are the values 2k and 2k + 1.  For every kind tag,
    flipping bit 0 gives the tag of the dual kind, another kind tag of
    the same pair, and flipping it again gives the tag back. *)
Theorem dual_kinds_paired (v : Z)
    (Hkind : 0 <= v < IOElemType_value TYPE_SIZE) :
  0 <= Z.lxor v 1 < IOElemType_value TYPE_SIZE
  /\ Z.lxor v 1 <> v
  /\ Z.lxor (Z.lxor v 1) 1 = v
  /\ Z.lxor v 1 / 2 = v / 2
  /\ Z.lxor (IOElemType_value VERTEX_T) 1 = IOElemType_value CELL_T
  /\ Z.lxor (IOElemType_value EDGE_T) 1 = IOElemType_value FACE_T.
Proof.
  change (IOElemType_value TYPE_SIZE) with 4 in *.
  assert (Hv : v = 0 \/ v = 1 \/ v = 2 \/ v = 3) by lia.
  destruct Hv as [-> | [-> | [-> | ->]]];
    repeat split; cbn; try lia; try discriminate.
Qed.

Lemma dual_kinds_paired_EDGE :
  0 <= Z.lxor (IOElemType_value EDGE_T) 1 < IOElemType_value TYPE_SIZE
  /\ Z.lxor (IOElemType_value EDGE_T) 1 <> IOElemType_value EDGE_T
  /\ Z.lxor (Z.lxor (IOElemType_value EDGE_T) 1) 1 = IOElemType_value EDGE_T
  /\ Z.lxor (IOElemType_value EDGE_T) 1 / 2 = IOElemType_value EDGE_T / 2
  /\ Z.lxor (IOElemType_value VERTEX_T) 1 = IOElemType_value CELL_T
  /\ Z.lxor (IOElemType_value EDGE_T) 1 = IOElemType_value FACE_T.
Proof.
  apply (dual_kinds_paired (IOElemType_value EDGE_T)).
  cbn. lia.
Defined.

(** ** The shape flags *)

(** X9: LISZT_MAT_FLAG holds the bit of LISZT_VEC_FLAG: a flags byte
    with the matrix flag set has the vector flag set too, so data[0] is
    a dimension under either flag, and a matrix is told from a vector
    by bit 1 alone; the vector flag itself does not pass for the matrix
    flag. *)
Theorem mat_flag_contains_vec_flag (flags : Z)
    (Hmat : Z.land flags LISZT_MAT_FLAG = LISZT_MAT_FLAG) :
  Z.land flags LISZT_VEC_FLAG = LISZT_VEC_FLAG
  /\ Z.testbit flags 1 = true
  /\ LISZT_MAT_FLAG = Z.lor LISZT_VEC_FLAG 2
  /\ Z.land LISZT_VEC_FLAG LISZT_MAT_FLAG <> LISZT_MAT_FLAG.
Proof.
  repeat split.
  - change LISZT_VEC_FLAG with (Z.land LISZT_MAT_FLAG LISZT_VEC_FLAG) at 1.
    rewrite Z.land_assoc, Hmat. reflexivity.
  - assert (H1 : Z.testbit (Z.land flags LISZT_MAT_FLAG) 1 = true)
      by (rewrite Hmat; reflexivity).
    rewrite Z.land_spec in H1. apply andb_true_iff in H1. tauto.
  - discriminate.
Qed.

Lemma mat_flag_contains_vec_flag_7 :
  Z.land 7 LISZT_VEC_FLAG = LISZT_VEC_FLAG
  /\ Z.testbit 7 1 = true
  /\ LISZT_MAT_FLAG = Z.lor LISZT_VEC_FLAG 2
  /\ Z.land LISZT_VEC_FLAG LISZT_MAT_FLAG <> LISZT_MAT_FLAG.
Proof.
  apply (mat_flag_contains_vec_flag 7). reflexivity.
Defined.
